(** * LogStream: bounded indexed store, sliding-window alert evaluator and
      ingestion dispatcher

    A shallow embedding of the three Go packages [storage], [alerting] and
    [ingestion] (and of [models]) together with the properties of their
    operations.

    Conventions of the embedding.
    - Go's [int] and [int64] are 64-bit two's-complement integers, [uint64]
      is a 64-bit unsigned integer; they are carried by [Z] and every
      operation that can leave the range has its wrap-around written out
      ([GoInt.wrap_int], [GoInt.wrap_uint64]).
    - A [time.Time] is an instant on one time line, carried by [Z] as the
      number of nanoseconds since the Unix epoch; a [time.Duration] is an
      [int64] number of nanoseconds.
    - A run-time panic (slice bounds out of range, send on a closed channel,
      [make] with a negative size) is the result [None].
    - A Go [map] is a [gmap]; a slice is a [list]; a position stored in an
      index is a [nat] (positions always come from [len]). *)

From Stdlib Require Import ZArith Lia List String Ascii Sorted.
From stdpp Require Import gmap strings list fin_maps pretty.

Local Open Scope Z_scope.

(** ** Machine integers *)

Module GoInt.

Definition int_min : Z := - 2 ^ 63.
Definition int_max : Z := 2 ^ 63 - 1.

Definition in_int (z : Z) : Prop := int_min <= z <= int_max.

(** Two's-complement reduction of a mathematical integer to [int]. *)
Definition wrap_int (z : Z) : Z := (z + 2 ^ 63) `mod` 2 ^ 64 - 2 ^ 63.

(** Reduction of a mathematical integer to [uint64]. *)
Definition wrap_uint64 (z : Z) : Z := z `mod` 2 ^ 64.

Definition sub_int (a b : Z) : Z := wrap_int (a - b).
Definition neg_int (a : Z) : Z := wrap_int (- a).
Definition add_uint64 (a b : Z) : Z := wrap_uint64 (a + b).

(** The runtime's bound on the size in bytes of one allocation ([maxAlloc])
    where addresses have 48 bits, as on the 64-bit platforms the [int] above
    stands for. *)
Definition maxAlloc : Z := 2 ^ 48.

End GoInt.

(** ** The part of package [time] the program uses *)

Module GoTime.

(** Nanoseconds since the Unix epoch. *)
Definition Time : Type := Z.
(** Nanoseconds. *)
Definition Duration : Type := Z.

Definition Second : Duration := 1000000000.
Definition Minute : Duration := 60 * Second.

(** [t.Unix()]: whole seconds since the epoch, rounded down. *)
Definition Unix (t : Time) : Z := t `div` 1000000000.

(** [t.After(u)] and [t.Before(u)]: strict comparisons of instants. *)
Definition After (t u : Time) : bool := bool_decide (u < t).
Definition Before (t u : Time) : bool := bool_decide (t < u).

(** [t.Add(d)]. *)
Definition Add (t : Time) (d : Duration) : Time := t + d.

(** The zero value [time.Time{}]: January 1 of year 1, 00:00:00 UTC, whose
    [Unix()] is [-62135596800]. *)
Definition zero_Time : Time := -62135596800 * Second.

End GoTime.

(** ** Slices *)

Module Slice.

(** The slice expression [s[low:]]: it panics unless [0 <= low <= len(s)]. *)
Definition slice_from {A : Type} (s : list A) (low : Z) : option (list A) :=
  if bool_decide (0 <= low <= Z.of_nat (length s))
  then Some (drop (Z.to_nat low) s)
  else None.

End Slice.

(** ** Package [models] *)

Module Models.

(** [LogEntry]. The values of [Metadata] are never inspected by the code
    below; they are carried as strings. *)
Record LogEntry : Type := mkLogEntry {
  ID : string;
  Timestamp : GoTime.Time;
  Level : string;
  Message : string;
  Service : string;
  Metadata : gmap string string
}.

Definition LevelInfo : string := "INFO".
Definition LevelWarning : string := "WARNING".
Definition LevelError : string := "ERROR".
Definition LevelCritical : string := "CRITICAL".

(** The zero value [LogEntry{}]. *)
Definition zero_LogEntry : LogEntry :=
  {| ID := EmptyString; Timestamp := GoTime.zero_Time; Level := EmptyString;
     Message := EmptyString; Service := EmptyString; Metadata := ∅ |}.

End Models.

(** ** Package [storage] *)

Module Storage.
Import Models.

Record TimeIndex : Type := mkTimeIndex {
  buckets : gmap Z (list nat)
}.

Record MemoryStore : Type := mkMemoryStore {
  logs : list LogEntry;
  indexByLevel : gmap string (list nat);
  indexByTime : TimeIndex;
  maxLogs : Z
}.

(** [m[k] = append(m[k], idx)]; a missing key reads as the empty slice. *)
Definition index_append `{Countable K} (m : gmap K (list nat)) (k : K)
    (idx : nat) : gmap K (list nat) :=
  <[k := default [] (m !! k) ++ [idx]]> m.

(** [entry.Timestamp.Unix() / 60]: Go's [/] on integers truncates towards
    zero. *)
Definition timeBucket (t : GoTime.Time) : Z := GoTime.Unix t `quot` 60.

(** The size in bytes of a [LogEntry] where words have 64 bits: four strings
    (16 each), a [time.Time] (24) and a map (8). *)
Definition LogEntry_size : Z := 96.

(** [NewMemoryStore]: [make([]LogEntry, 0, maxLogs)] panics ([makeslice: cap
    out of range]) on a negative capacity and on a capacity whose size in
    bytes exceeds the allocator's bound.  Below that bound an allocation the
    operating system cannot serve ends the process; the properties of a store
    are therefore stated of a store the constructor returned. *)
Definition NewMemoryStore (maxLogs : Z) : option MemoryStore :=
  if bool_decide (maxLogs < 0 \/ GoInt.maxAlloc < LogEntry_size * maxLogs)
  then None
  else Some {| logs := [];
               indexByLevel := ∅;
               indexByTime := {| buckets := ∅ |};
               maxLogs := maxLogs |}.

(** The loop of [rebuildIndices], started at position [idx]. *)
Fixpoint rebuild_loop (idx : nat) (l : list LogEntry)
    (byLevel : gmap string (list nat)) (byTime : gmap Z (list nat))
    : gmap string (list nat) * gmap Z (list nat) :=
  match l with
  | [] => (byLevel, byTime)
  | log :: l' =>
      rebuild_loop (S idx) l'
        (index_append byLevel (Level log) idx)
        (index_append byTime (timeBucket (Timestamp log)) idx)
  end.

Definition rebuildIndices (ms : MemoryStore) : MemoryStore :=
  let '(byLevel, byTime) := rebuild_loop 0 (logs ms) ∅ ∅ in
  {| logs := logs ms;
     indexByLevel := byLevel;
     indexByTime := {| buckets := byTime |};
     maxLogs := maxLogs ms |}.

(** [evictOldest]: drops the first [maxLogs / 5] entries, then rebuilds. *)
Definition evictOldest (ms : MemoryStore) : option MemoryStore :=
  let evictCount := maxLogs ms `quot` 5 in
  match Slice.slice_from (logs ms) evictCount with
  | None => None
  | Some rest =>
      Some (rebuildIndices {| logs := rest;
                              indexByLevel := indexByLevel ms;
                              indexByTime := indexByTime ms;
                              maxLogs := maxLogs ms |})
  end.

(** [Store]. *)
Definition Store (ms : MemoryStore) (entry : LogEntry) : option MemoryStore :=
  let idx := length (logs ms) in
  let ms1 :=
    {| logs := logs ms ++ [entry];
       indexByLevel := index_append (indexByLevel ms) (Level entry) idx;
       indexByTime :=
         {| buckets := index_append (buckets (indexByTime ms))
                         (timeBucket (Timestamp entry)) idx |};
       maxLogs := maxLogs ms |} in
  if bool_decide (Z.of_nat (length (logs ms1)) > maxLogs ms1)
  then evictOldest ms1
  else Some ms1.

(** [GetByLevel]: the entries at the indexed positions, a position that is
    not below [len(ms.logs)] being skipped. *)
Definition GetByLevel (ms : MemoryStore) (level : string) : list LogEntry :=
  let indices := default [] (indexByLevel ms !! level) in
  omap (fun idx => logs ms !! idx) indices.

(** [GetByTimeRange]: the buckets [startBucket .. endBucket] in ascending
    order; within a bucket the indexed positions in their stored order. *)
Definition GetByTimeRange (ms : MemoryStore) (start end_ : GoTime.Time)
    : list LogEntry :=
  let startBucket := GoTime.Unix start `quot` 60 in
  let endBucket := GoTime.Unix end_ `quot` 60 in
  flat_map
    (fun bucket =>
       match buckets (indexByTime ms) !! bucket with
       | Some indices =>
           flat_map
             (fun idx =>
                match logs ms !! idx with
                | Some log =>
                    if negb (GoTime.Before (Timestamp log) start)
                       && negb (GoTime.After (Timestamp log) end_)
                    then [log] else []
                | None => []
                end)
             indices
       | None => []
       end)
    (seqZ startBucket (endBucket - startBucket + 1)).

(** [GetRecent]: [start := len(ms.logs) - n] is an [int] subtraction. *)
Definition GetRecent (ms : MemoryStore) (n : Z) : option (list LogEntry) :=
  let start := GoInt.sub_int (Z.of_nat (length (logs ms))) n in
  let start := if bool_decide (start < 0) then 0 else start in
  Slice.slice_from (logs ms) start.

Definition Count (ms : MemoryStore) : Z := Z.of_nat (length (logs ms)).

(** A sequence of [Store] calls, in order. *)
Fixpoint store_all (ms : MemoryStore) (entries : list LogEntry)
    : option MemoryStore :=
  match entries with
  | [] => Some ms
  | e :: rest =>
      match Store ms e with
      | Some ms' => store_all ms' rest
      | None => None
      end
  end.

(** The stores a program can hold: built by [NewMemoryStore] and changed
    by [Store] only. *)
Inductive reachable : MemoryStore -> Prop :=
| reachable_new cap ms :
    NewMemoryStore cap = Some ms -> reachable ms
| reachable_store ms e ms' :
    reachable ms -> Store ms e = Some ms' -> reachable ms'.

End Storage.

(** ** Channels *)

Module Chan.

(** The state of a channel: the buffered values (oldest first), the
    capacity, whether it was closed, the number of receivers blocked on
    it, and the values handed straight to a blocked receiver (oldest
    first). *)
Record chan (A : Type) : Type := mkChan {
  buf : list A;
  cap : Z;
  closed : bool;
  recvq : nat;
  handed : list A
}.
Arguments mkChan {A}.
Arguments buf {A}.
Arguments cap {A}.
Arguments closed {A}.
Arguments recvq {A}.
Arguments handed {A}.

(** [make(chan A, size)] panics on a negative size.  (The allocator's upper
    limit is not part of the model.) *)
Definition make {A : Type} (size : Z) : option (chan A) :=
  if bool_decide (size < 0) then None
  else Some {| buf := []; cap := size; closed := false; recvq := 0;
               handed := [] |}.

(** [close(c)] panics on a closed channel. *)
Definition close {A : Type} (c : chan A) : option (chan A) :=
  if closed c then None
  else Some {| buf := buf c; cap := cap c; closed := true;
               recvq := recvq c; handed := handed c |}.

(** [select { case c <- v: (true); default: (false) }]: a send that does
    not wait.  On a closed channel the send panics; a blocked receiver
    takes the value directly; otherwise the value goes to the buffer when
    there is room, and the [default] branch runs when there is none. *)
Definition try_send {A : Type} (c : chan A) (v : A) : option (bool * chan A) :=
  if closed c then None
  else match recvq c with
       | S waiting =>
           Some (true, {| buf := buf c; cap := cap c; closed := false;
                          recvq := waiting; handed := handed c ++ [v] |})
       | O =>
           if bool_decide (Z.of_nat (length (buf c)) < cap c)
           then Some (true, {| buf := buf c ++ [v]; cap := cap c;
                               closed := false; recvq := O;
                               handed := handed c |})
           else Some (false, c)
       end.

(** A receive [<-c] on an open channel: the oldest buffered value is taken;
    on an empty buffer the receiver blocks and is counted in [recvq]. *)
Definition recv {A : Type} (c : chan A) : option A * chan A :=
  match buf c with
  | v :: rest =>
      (Some v, {| buf := rest; cap := cap c; closed := closed c;
                  recvq := recvq c; handed := handed c |})
  | [] =>
      (None, {| buf := []; cap := cap c; closed := closed c;
                recvq := S (recvq c); handed := handed c |})
  end.

(** A receive [v, ok := <-c] that can proceed at once: the oldest buffered
    value ([ok] true), or on an empty closed channel the zero value ([ok]
    false); [None] when the receiver would have to wait (empty open
    channel).  No sender ever waits on the channels of this program: every
    send is a [select] with a [default] branch. *)
Definition receive_ready {A : Type} (zero : A) (c : chan A)
    : option (A * bool * chan A) :=
  match buf c with
  | v :: rest =>
      Some (v, true, {| buf := rest; cap := cap c; closed := closed c;
                        recvq := recvq c; handed := handed c |})
  | [] => if closed c then Some (zero, false, c) else None
  end.

(** What the runtime maintains: a receiver blocks on an empty buffer only,
    and the buffer never holds more than the capacity. *)
Definition wf {A : Type} (c : chan A) : Prop :=
  0 <= cap c /\ Z.of_nat (length (buf c)) <= cap c /\
  (recvq c <> O -> buf c = []).

End Chan.

(** ** Package [alerting] *)

Module Alerting.

Record AlertRule : Type := mkAlertRule {
  Name : string;
  Level : string;
  Threshold : Z;
  Window : GoTime.Duration;
  Pattern : string
}.

Record Alert : Type := mkAlert {
  RuleName : string;
  Message : string;
  Count : Z;
  Timestamp : GoTime.Time
}.

Record logEntry : Type := mklogEntry {
  timestamp : GoTime.Time;
  level : string;
  message : string
}.

(** [AlertManager] without its mutex and its callback (the callback is run
    by the consumer of [alertChannel], not by the functions below). *)
Record AlertManager : Type := mkAlertManager {
  rules : list AlertRule;
  alertChannel : Chan.chan Alert;
  recentLogs : list logEntry
}.

Definition len (s : string) : Z := Z.of_nat (String.length s).

(** The loop of [contains], with [fuel] iterations left at index [i];
    [substring i n s] is [s[i:i+n]]. *)
Fixpoint contains_loop (fuel : nat) (i : nat) (s substr : string) : bool :=
  match fuel with
  | O => false
  | S fuel' =>
      if String.eqb (substring i (String.length substr) s) substr then true
      else contains_loop fuel' (S i) s substr
  end.

(** [contains]: [i] runs from [0] while [i <= len(s) - len(substr)]. *)
Definition contains (s substr : string) : bool :=
  contains_loop (Z.to_nat (len s - len substr + 1)) 0 s substr.

Definition containsPattern (message pattern : string) : bool :=
  bool_decide (len pattern = 0)
  || (bool_decide (len message >= len pattern) && contains message pattern).

(** [NewAlertManager]: no rules, an open channel of capacity 100. *)
Definition NewAlertManager : AlertManager :=
  {| rules := [];
     alertChannel := {| Chan.buf := []; Chan.cap := 100;
                        Chan.closed := false; Chan.recvq := 0;
                        Chan.handed := [] |};
     recentLogs := [] |}.

Definition AddRule (am : AlertManager) (rule : AlertRule) : AlertManager :=
  {| rules := rules am ++ [rule];
     alertChannel := alertChannel am;
     recentLogs := recentLogs am |}.

(** [Stop]: closes the alert channel. *)
Definition Stop (am : AlertManager) : option AlertManager :=
  match Chan.close (alertChannel am) with
  | None => None
  | Some ch => Some {| rules := rules am; alertChannel := ch;
                       recentLogs := recentLogs am |}
  end.

Definition getMaxWindow (am : AlertManager) : GoTime.Duration :=
  fold_left
    (fun max rule => if bool_decide (Window rule > max) then Window rule else max)
    (rules am) GoTime.Minute.

Definition cleanOldLogs (logs : list logEntry) (cutoff : GoTime.Time)
    : list logEntry :=
  List.filter (fun log => GoTime.After (timestamp log) cutoff) logs.

(** The body of the loop of [shouldTriggerAlert]. *)
Definition count_step (rule : AlertRule) (windowStart : GoTime.Time)
    (count : Z) (log : logEntry) : Z :=
  if GoTime.After (timestamp log) windowStart then
    if bool_decide (level log = Level rule) then
      if bool_decide (Pattern rule = EmptyString)
         || containsPattern (message log) (Pattern rule)
      then count + 1 else count
    else count
  else count.

(** [shouldTriggerAlert] at the clock reading [now]. *)
Definition shouldTriggerAlert_at (am : AlertManager) (rule : AlertRule)
    (now : GoTime.Time) : bool :=
  let windowStart := GoTime.Add now (GoInt.neg_int (Window rule)) in
  let count := fold_left (count_step rule windowStart) (recentLogs am) 0 in
  bool_decide (count >= Threshold rule).

Section Run.
(** [clock k] is the value of the [k]-th call of [time.Now()];
    [Duration_String] is [Duration.String], the [%v] rendering of a
    duration (standard library). *)
Variable clock : nat -> GoTime.Time.
Variable Duration_String : GoTime.Duration -> string.

(** Computations that read the clock and may panic: the state is the
    number of readings taken so far. *)
Definition Run (A : Type) : Type := nat -> option (A * nat).

Definition ret {A : Type} (a : A) : Run A := fun k => Some (a, k).
Definition bind {A B : Type} (c : Run A) (f : A -> Run B) : Run B :=
  fun k => match c k with
           | Some (a, k') => f a k'
           | None => None
           end.
Definition panic {A : Type} : Run A := fun _ => None.
Definition time_Now : Run GoTime.Time := fun k => Some (clock k, S k).

Notation "x <- c ;; f" := (bind c (fun x => f))
  (at level 100, c at next level, right associativity).

Definition shouldTriggerAlert (am : AlertManager) (rule : AlertRule)
    : Run bool :=
  now <- time_Now ;;
  ret (shouldTriggerAlert_at am rule now).

(** [fmt.Sprintf("Alert: %s triggered! %d %s logs in last %v", ...)]. *)
Definition alert_message (rule : AlertRule) : string :=
  "Alert: " +:+ Name rule +:+ " triggered! " +:+ pretty (Threshold rule)
  +:+ " " +:+ Level rule +:+ " logs in last "
  +:+ Duration_String (Window rule).

(** The loop over the rules in [ProcessLog].  Besides the channel it
    returns the alerts it constructed, in order, each with the outcome of
    its send ([true]: taken by the channel, [false]: skipped because the
    channel was full). *)
Fixpoint check_rules (am : AlertManager) (rs : list AlertRule)
    (ch : Chan.chan Alert) : Run (Chan.chan Alert * list (Alert * bool)) :=
  match rs with
  | [] => ret (ch, [])
  | rule :: rs' =>
      fire <- shouldTriggerAlert am rule ;;
      if fire : bool then
        now <- time_Now ;;
        let alert := {| RuleName := Name rule;
                        Message := alert_message rule;
                        Count := Threshold rule;
                        Timestamp := now |} in
        match Chan.try_send ch alert with
        | None => panic
        | Some (sent, ch') =>
            r <- check_rules am rs' ch' ;;
            ret (fst r, (alert, sent) :: snd r)
        end
      else check_rules am rs' ch
  end.

(** [ProcessLog]; the second component lists the alerts constructed by
    this call. *)
Definition ProcessLog (am : AlertManager) (log : Models.LogEntry)
    : Run (AlertManager * list (Alert * bool)) :=
  let recent1 :=
    recentLogs am ++ [ {| timestamp := Models.Timestamp log;
                          level := Models.Level log;
                          message := Models.Message log |} ] in
  let am1 := {| rules := rules am; alertChannel := alertChannel am;
                recentLogs := recent1 |} in
  let maxWindow := getMaxWindow am1 in
  now <- time_Now ;;
  let cutoff := GoTime.Add now (GoInt.neg_int maxWindow) in
  let am2 := {| rules := rules am; alertChannel := alertChannel am;
                recentLogs := cleanOldLogs recent1 cutoff |} in
  r <- check_rules am2 (rules am2) (alertChannel am2) ;;
  ret ({| rules := rules am2; alertChannel := fst r;
          recentLogs := recentLogs am2 |}, snd r).

End Run.

(** The loop of [processAlerts], [for alert := range am.alertChannel], run
    for as long as it does not have to wait: it takes the buffered alerts,
    oldest first, and for each one starts the callback in a goroutine of its
    own when a callback is set ([callback] tells whether [alertCallback] is
    not nil).  The result lists the alerts the callback was started on, in
    order, tells whether the loop ended (channel closed and drained) rather
    than waits for the next alert, and gives the manager afterwards. *)
Definition processAlerts (callback : bool) (am : AlertManager)
    : list Alert * bool * AlertManager :=
  let ch := alertChannel am in
  (if callback then Chan.buf ch else [],
   Chan.closed ch,
   {| rules := rules am;
      alertChannel :=
        {| Chan.buf := []; Chan.cap := Chan.cap ch;
           Chan.closed := Chan.closed ch;
           Chan.recvq := if Chan.closed ch then Chan.recvq ch
                         else S (Chan.recvq ch);
           Chan.handed := Chan.handed ch |};
      recentLogs := recentLogs am |}).

End Alerting.

(** ** Package [ingestion] *)

Module Ingestion.

Record Stats : Type := mkStats {
  TotalProcessed : Z;
  TotalDropped : Z;
  StartTime : GoTime.Time
}.

(** [Ingestor]: the two pointers are carried as the objects they point to;
    [shutdown] is a channel that is only ever closed, so its state is
    whether it was. *)
Record Ingestor : Type := mkIngestor {
  store : Storage.MemoryStore;
  alertManager : option Alerting.AlertManager;
  logChannel : Chan.chan Models.LogEntry;
  workerCount : Z;
  stats : Stats;
  shutdown : bool
}.

(** [NewIngestor], [now] being the reading of [time.Now()]. *)
Definition NewIngestor (store : Storage.MemoryStore)
    (alertMgr : option Alerting.AlertManager) (workerCount bufferSize : Z)
    (now : GoTime.Time) : option Ingestor :=
  match Chan.make bufferSize with
  | None => None
  | Some ch =>
      Some {| store := store;
              alertManager := alertMgr;
              logChannel := ch;
              workerCount := workerCount;
              stats := {| TotalProcessed := 0; TotalDropped := 0;
                          StartTime := now |};
              shutdown := false |}
  end.

(** [Ingest]: [atomic.AddUint64] adds modulo [2^64]. *)
Definition Ingest (ing : Ingestor) (entry : Models.LogEntry)
    : option (bool * Ingestor) :=
  match Chan.try_send (logChannel ing) entry with
  | None => None
  | Some (true, ch) =>
      Some (true, {| store := store ing;
                     alertManager := alertManager ing;
                     logChannel := ch;
                     workerCount := workerCount ing;
                     stats := stats ing;
                     shutdown := shutdown ing |})
  | Some (false, _) =>
      Some (false, {| store := store ing;
                      alertManager := alertManager ing;
                      logChannel := logChannel ing;
                      workerCount := workerCount ing;
                      stats :=
                        {| TotalProcessed := TotalProcessed (stats ing);
                           TotalDropped :=
                             GoInt.add_uint64 (TotalDropped (stats ing)) 1;
                           StartTime := StartTime (stats ing) |};
                      shutdown := shutdown ing |})
  end.

(** [Stop]: closes [shutdown], then [logChannel] (the wait for the workers
    is not modelled). *)
Definition Stop (ing : Ingestor) : option Ingestor :=
  if shutdown ing then None
  else match Chan.close (logChannel ing) with
       | None => None
       | Some ch =>
           Some {| store := store ing;
                   alertManager := alertManager ing;
                   logChannel := ch;
                   workerCount := workerCount ing;
                   stats := stats ing;
                   shutdown := true |}
       end.

Definition GetStats (ing : Ingestor) : Stats :=
  {| TotalProcessed := TotalProcessed (stats ing);
     TotalDropped := TotalDropped (stats ing);
     StartTime := StartTime (stats ing) |}.

(** A sequence of [Ingest] calls, in order, with their results. *)
Fixpoint ingest_all (ing : Ingestor) (entries : list Models.LogEntry)
    : option (list bool * Ingestor) :=
  match entries with
  | [] => Some ([], ing)
  | e :: rest =>
      match Ingest ing e with
      | None => None
      | Some (ok, ing') =>
          match ingest_all ing' rest with
          | None => None
          | Some (oks, ing'') => Some (ok :: oks, ing'')
          end
      end
  end.

(** The case a [select] of the worker proceeds with when both are ready
    (the runtime chooses at random). *)
Inductive select_case : Type := PickLog | PickShutdown.

(** What one iteration of the loop of [worker] does: it waits (no case is
    ready), it returns (shutdown), or it processes a log and loops. *)
Inductive iteration : Type :=
| Waits (ing : Ingestor)
| Returns
| Continues (ing : Ingestor).

Section Worker.
Variable clock : nat -> GoTime.Time.
Variable Duration_String : GoTime.Duration -> string.

(** The first case of the [select] of [worker], for the received [log]:
    [Store], then [ProcessLog] when an alert manager is set, then the
    processed counter.  Each of the three steps is atomic in the program;
    here no other worker acts between them. *)
Definition worker_body (ing : Ingestor) (log : Models.LogEntry)
    : Alerting.Run Ingestor :=
  fun k =>
    match Storage.Store (store ing) log with
    | None => None
    | Some st =>
        let processed :=
          {| TotalProcessed := GoInt.add_uint64 (TotalProcessed (stats ing)) 1;
             TotalDropped := TotalDropped (stats ing);
             StartTime := StartTime (stats ing) |} in
        match alertManager ing with
        | Some am =>
            match Alerting.ProcessLog clock Duration_String am log k with
            | Some (r, k') =>
                Some ({| store := st; alertManager := Some r.1;
                         logChannel := logChannel ing;
                         workerCount := workerCount ing;
                         stats := processed; shutdown := shutdown ing |}, k')
            | None => None
            end
        | None =>
            Some ({| store := st; alertManager := None;
                     logChannel := logChannel ing;
                     workerCount := workerCount ing;
                     stats := processed; shutdown := shutdown ing |}, k)
        end
    end.

(** One iteration of the loop of [worker]: the [select] over
    [<-ing.logChannel] and [<-ing.shutdown].  The first is ready when the
    queue holds an entry or is closed, the second when [shutdown] is closed;
    [pick] is the runtime's choice when both are ready. *)
Definition worker_iteration (pick : select_case) (ing : Ingestor)
    : Alerting.Run iteration :=
  fun k =>
    let process (log : Models.LogEntry) (ch : Chan.chan Models.LogEntry) :=
      match worker_body {| store := store ing;
                           alertManager := alertManager ing;
                           logChannel := ch;
                           workerCount := workerCount ing;
                           stats := stats ing;
                           shutdown := shutdown ing |} log k with
      | Some (ing', k') => Some (Continues ing', k')
      | None => None
      end in
    match Chan.receive_ready Models.zero_LogEntry (logChannel ing) with
    | Some (log, _, ch) =>
        if shutdown ing then
          match pick with
          | PickLog => process log ch
          | PickShutdown => Some (Returns, k)
          end
        else process log ch
    | None =>
        if shutdown ing then Some (Returns, k)
        else Some (Waits {| store := store ing;
                            alertManager := alertManager ing;
                            logChannel := (Chan.recv (logChannel ing)).2;
                            workerCount := workerCount ing;
                            stats := stats ing;
                            shutdown := shutdown ing |}, k)
    end.

End Worker.

End Ingestion.

(** ** Notions used to state the properties *)

Module Notions.
Import Models.

(** The last [k] elements of a sequence, in order. *)
Definition most_recent {A : Type} (k : nat) (l : list A) : list A :=
  drop (length l - k) l.

(** The positions, counted from [i], of the elements of [l] that satisfy
    [P], in ascending order. *)
Fixpoint positions {A : Type} (P : A -> bool) (i : nat) (l : list A)
    : list nat :=
  match l with
  | [] => []
  | x :: l' => (if P x then [i] else []) ++ positions P (S i) l'
  end.

(** Both indices of a store are what [rebuildIndices] computes from its
    sequence. *)
Definition consistent (ms : Storage.MemoryStore) : Prop :=
  (Storage.indexByLevel ms, Storage.buckets (Storage.indexByTime ms)) =
  Storage.rebuild_loop 0 (Storage.logs ms) ∅ ∅.

(** [pattern] occurs in [message] as a contiguous substring. *)
Definition is_substring (pattern message : string) : Prop :=
  exists pre post, message = pre +:+ pattern +:+ post.

(** An entry stamped [i] seconds after the epoch, with level [lvl]. *)
Definition sample_entry (lvl : string) (i : Z) : LogEntry :=
  {| ID := pretty i; Timestamp := i * GoTime.Second; Level := lvl;
     Message := "request " +:+ pretty i; Service := "api-gateway";
     Metadata := ∅ |}.

(** The entries stamped [0], [1], ..., [n - 1]. *)
Definition sample_entries (n : Z) : list LogEntry :=
  map (sample_entry LevelInfo) (seqZ 0 n).

(** The entries stamped at the minutes [0], [1], ..., [n - 1], level ERROR. *)
Definition minute_entries (n : Z) : list LogEntry :=
  map (fun i => sample_entry LevelError (60 * i)) (seqZ 0 n).

(** The store obtained from a new store of capacity [cap] by storing
    [entries] in order. *)
Definition store_of (cap : Z) (entries : list LogEntry)
    : option Storage.MemoryStore :=
  match Storage.NewMemoryStore cap with
  | Some ms0 => Storage.store_all ms0 entries
  | None => None
  end.

Definition empty_store : Storage.MemoryStore :=
  {| Storage.logs := []; Storage.indexByLevel := ∅;
     Storage.indexByTime := {| Storage.buckets := ∅ |};
     Storage.maxLogs := 0 |}.

(** A store of capacity 10 holding the four entries of [minute_entries 4]. *)
Definition sample_store : Storage.MemoryStore :=
  default empty_store (store_of 10 (minute_entries 4)).

(** The summary of an entry that [ProcessLog] appends to the window. *)
Definition summary (log : LogEntry) : Alerting.logEntry :=
  {| Alerting.timestamp := Timestamp log;
     Alerting.level := Level log;
     Alerting.message := Message log |}.

(** What [shouldTriggerAlert] counts for [rule] at the reading [now]: the
    summaries stamped strictly after [now - rule.Window], of the rule's
    level, whose message contains the rule's pattern when there is one. *)
Definition counted (rule : Alerting.AlertRule) (now : GoTime.Time)
    (log : Alerting.logEntry) : Prop :=
  now - Alerting.Window rule < Alerting.timestamp log /\
  Alerting.level log = Alerting.Level rule /\
  (Alerting.Pattern rule = EmptyString \/
   is_substring (Alerting.Pattern rule) (Alerting.message log)).

Definition countedb (rule : Alerting.AlertRule) (now : GoTime.Time)
    (log : Alerting.logEntry) : bool :=
  bool_decide (now - Alerting.Window rule < Alerting.timestamp log)
  && bool_decide (Alerting.level log = Alerting.Level rule)
  && (bool_decide (Alerting.Pattern rule = EmptyString)
      || Alerting.containsPattern (Alerting.message log) (Alerting.Pattern rule)).

Definition matching_count (rule : Alerting.AlertRule) (now : GoTime.Time)
    (logs : list Alerting.logEntry) : Z :=
  Z.of_nat (length (List.filter (countedb rule now) logs)).

(** The count over the closed interval [[now - rule.Window, now]], as the
    specification words it. *)
Definition closed_interval_count (rule : Alerting.AlertRule)
    (now : GoTime.Time) (logs : list Alerting.logEntry) : Z :=
  Z.of_nat (length (List.filter
    (fun log =>
       bool_decide (now - Alerting.Window rule <= Alerting.timestamp log <= now)
       && bool_decide (Alerting.level log = Alerting.Level rule)
       && (bool_decide (Alerting.Pattern rule = EmptyString)
           || Alerting.containsPattern (Alerting.message log)
                (Alerting.Pattern rule)))
    logs)).

(** The alert [ProcessLog] constructs for [rule] at the reading [now]. *)
Definition alert_of (Duration_String : GoTime.Duration -> string)
    (rule : Alerting.AlertRule) (now : GoTime.Time) : Alerting.Alert :=
  {| Alerting.RuleName := Alerting.Name rule;
     Alerting.Message := Alerting.alert_message Duration_String rule;
     Alerting.Count := Alerting.Threshold rule;
     Alerting.Timestamp := now |}.

(** A clock that reads [now] at every call. *)
Definition frozen (now : GoTime.Time) : nat -> GoTime.Time := fun _ => now.

(** A rendering of durations in whole seconds, used in the examples only. *)
Definition seconds_String (d : GoTime.Duration) : string :=
  pretty (d `quot` GoTime.Second) +:+ "s".

(** The rule of the specification's example: three ERROR entries within
    thirty seconds. *)
Definition three_errors : Alerting.AlertRule :=
  {| Alerting.Name := "Errors"; Alerting.Level := LevelError;
     Alerting.Threshold := 3; Alerting.Window := 30 * GoTime.Second;
     Alerting.Pattern := EmptyString |}.

(** A rule that fires on one ERROR entry within thirty seconds. *)
Definition one_error : Alerting.AlertRule :=
  {| Alerting.Name := "Any error"; Alerting.Level := LevelError;
     Alerting.Threshold := 1; Alerting.Window := 30 * GoTime.Second;
     Alerting.Pattern := EmptyString |}.

(** An alert manager holding the rules [rs] and nothing else. *)
Definition manager_with (rs : list Alerting.AlertRule) : Alerting.AlertManager :=
  fold_left Alerting.AddRule rs Alerting.NewAlertManager.

(** The bucket of an instant as the specification words it: the floor of the
    timestamp divided by the bucket width, one minute. *)
Definition floor_bucket (t : GoTime.Time) : Z := t `div` GoTime.Minute.

(** The range query as the specification words it, over floor buckets: the
    buckets from the bucket of [start] to the bucket of [end] in ascending
    order, and in each the entries of that bucket with [start <= t <= end],
    in arrival order. *)
Definition range_by_floor_buckets (logs : list LogEntry)
    (start end_ : GoTime.Time) : list LogEntry :=
  flat_map
    (fun bucket =>
       List.filter
         (fun e => bool_decide (floor_bucket (Timestamp e) = bucket)
                   && (bool_decide (start <= Timestamp e)
                       && bool_decide (Timestamp e <= end_)))
         logs)
    (seqZ (floor_bucket start) (floor_bucket end_ - floor_bucket start + 1)).

(** What [NewMemoryStore(cap)] returns when it returns. *)
Definition new_store (cap : Z) : Storage.MemoryStore :=
  {| Storage.logs := []; Storage.indexByLevel := ∅;
     Storage.indexByTime := {| Storage.buckets := ∅ |};
     Storage.maxLogs := cap |}.

(** An entry stamped ten seconds after the epoch followed by one stamped ten
    seconds before it. *)
Definition around_epoch : list LogEntry :=
  [sample_entry LevelInfo 10; sample_entry LevelInfo (-10)].

(** The alert manager of an ingestor, when it has one, has its alert channel
    open. *)
Definition manager_open (ing : Ingestion.Ingestor) : Prop :=
  match Ingestion.alertManager ing with
  | Some am => Chan.closed (Alerting.alertChannel am) = false
  | None => True
  end.

(** The sample store after one more [Store]. *)
Definition sample_store_after : Storage.MemoryStore :=
  default empty_store
    (Storage.Store sample_store (sample_entry LevelInfo 200)).

(** A rule with threshold zero. *)
Definition zero_threshold : Alerting.AlertRule :=
  {| Alerting.Name := "Always"; Alerting.Level := LevelCritical;
     Alerting.Threshold := 0; Alerting.Window := 30 * GoTime.Second;
     Alerting.Pattern := "timeout" |}.

(** A manager with two rules whose window holds three ERROR summaries. *)
Definition busy_manager : Alerting.AlertManager :=
  {| Alerting.rules := [one_error; three_errors];
     Alerting.alertChannel := Alerting.alertChannel Alerting.NewAlertManager;
     Alerting.recentLogs := map summary (minute_entries 3) |}.

(** A running ingestor over the sample store, with a queue of two slots. *)
Definition sample_ingestor : Ingestion.Ingestor :=
  {| Ingestion.store := sample_store;
     Ingestion.alertManager := Some (manager_with [one_error]);
     Ingestion.logChannel :=
       {| Chan.buf := []; Chan.cap := 2; Chan.closed := false;
          Chan.recvq := 0; Chan.handed := [] |};
     Ingestion.workerCount := 20;
     Ingestion.stats :=
       {| Ingestion.TotalProcessed := 0; Ingestion.TotalDropped := 0;
          Ingestion.StartTime := 0 |};
     Ingestion.shutdown := false |}.

(** The same ingestor after [Stop]. *)
Definition stopped_ingestor : Ingestion.Ingestor :=
  {| Ingestion.store := sample_store;
     Ingestion.alertManager := Some (manager_with [one_error]);
     Ingestion.logChannel :=
       {| Chan.buf := []; Chan.cap := 2; Chan.closed := true;
          Chan.recvq := 0; Chan.handed := [] |};
     Ingestion.workerCount := 20;
     Ingestion.stats :=
       {| Ingestion.TotalProcessed := 0; Ingestion.TotalDropped := 0;
          Ingestion.StartTime := 0 |};
     Ingestion.shutdown := true |}.

End Notions.

(** * Properties *)

(** ** Machine integers, time and slices *)

Module GoIntFacts.
Import GoInt.

Lemma wrap_int_id z : in_int z -> wrap_int z = z.
Proof.
  unfold in_int, int_min, int_max, wrap_int. intros Hz.
  rewrite Z.mod_small; lia.
Qed.

Lemma wrap_int_above z :
  int_max < z -> z <= int_max + 2 ^ 64 -> wrap_int z = z - 2 ^ 64.
Proof.
  unfold int_max, wrap_int. intros H1 H2.
  replace (z + 2 ^ 63) with ((z - 2 ^ 63) + 1 * 2 ^ 64) by lia.
  rewrite Z.mod_add by lia. rewrite Z.mod_small; lia.
Qed.

Lemma wrap_int_range z : in_int (wrap_int z).
Proof.
  unfold in_int, int_min, int_max, wrap_int.
  pose proof (Z.mod_pos_bound (z + 2 ^ 63) (2 ^ 64)). lia.
Qed.

Lemma neg_int_id d : int_min < d <= int_max -> neg_int d = - d.
Proof.
  intros Hd. unfold neg_int. apply wrap_int_id.
  unfold in_int, int_min, int_max in *. lia.
Qed.

Lemma add_uint64_small a : 0 <= a < 2 ^ 64 - 1 -> add_uint64 a 1 = a + 1.
Proof.
  intros Ha. unfold add_uint64, wrap_uint64. rewrite Z.mod_small; lia.
Qed.

End GoIntFacts.

Module GoTimeFacts.
Import GoTime.

Lemma Unix_mono t u : t <= u -> Unix t <= Unix u.
Proof. intros H. unfold Unix. apply Z.div_le_mono; lia. Qed.

Lemma After_spec t u : After t u = true <-> u < t.
Proof. unfold After. apply bool_decide_eq_true. Qed.

Lemma Before_spec t u : Before t u = true <-> t < u.
Proof. unfold Before. apply bool_decide_eq_true. Qed.

(** The test [!t.Before(start) && !t.After(end)] is [start <= t <= end]. *)
Lemma within_spec t start end_ :
  negb (Before t start) && negb (After t end_) = true <-> start <= t <= end_.
Proof.
  unfold Before, After.
  rewrite andb_true_iff, !negb_true_iff, !bool_decide_eq_false. lia.
Qed.

End GoTimeFacts.

Module SliceFacts.
Import Slice.

Lemma slice_from_ok {A : Type} (s : list A) (low : Z) :
  0 <= low <= Z.of_nat (length s) ->
  slice_from s low = Some (drop (Z.to_nat low) s).
Proof. intros H. unfold slice_from. by rewrite bool_decide_eq_true_2. Qed.

Lemma slice_from_panics {A : Type} (s : list A) (low : Z) :
  low < 0 \/ Z.of_nat (length s) < low -> slice_from s low = None.
Proof.
  intros H. unfold slice_from. rewrite bool_decide_eq_false_2; [done | lia].
Qed.

End SliceFacts.

(** ** Channels *)

Module ChanFacts.
Import Chan.

Lemma make_wf {A : Type} (size : Z) (c : chan A) :
  make size = Some c -> wf c /\ closed c = false /\ cap c = size.
Proof.
  unfold make, wf. case_bool_decide; [done |].
  intros [= <-]. cbn. repeat split; done || lia.
Qed.

(** On an open channel a send that does not wait returns, and leaves the
    channel open. *)
Lemma try_send_open {A : Type} (c : chan A) (v : A) :
  closed c = false ->
  exists sent c', try_send c v = Some (sent, c') /\ closed c' = false.
Proof.
  intros Hopen. unfold try_send. rewrite Hopen.
  destruct (recvq c); [case_bool_decide |]; eauto.
Qed.

Lemma try_send_wf {A : Type} (c : chan A) (v : A) sent c' :
  wf c -> try_send c v = Some (sent, c') -> wf c'.
Proof.
  unfold wf, try_send. intros (Hcap & Hlen & Hq).
  destruct (closed c); [done |].
  destruct (recvq c) as [| waiting] eqn:Hrecv.
  - case_bool_decide; intros [= <- <-]; cbn.
    + rewrite length_app. cbn. repeat split; done || lia.
    + rewrite Hrecv. by repeat split.
  - intros [= <- <-]. cbn. repeat split; try done.
    intros _. by apply Hq.
Qed.

Lemma recv_wf {A : Type} (c : chan A) : wf c -> wf (recv c).2.
Proof.
  unfold wf, recv. intros (Hcap & Hlen & Hq).
  destruct (buf c) as [| v rest] eqn:Hbuf; cbn.
  - by repeat split.
  - cbn in Hlen. repeat split; try lia.
    intros Hne. by specialize (Hq Hne).
Qed.

(** A full buffer of positive capacity has no blocked receiver. *)
Lemma full_no_receiver {A : Type} (c : chan A) :
  wf c -> 0 < cap c -> cap c <= Z.of_nat (length (buf c)) -> recvq c = O.
Proof.
  unfold wf. intros (_ & _ & Hq) Hpos Hfull.
  destruct (recvq c) as [| waiting]; [done |].
  rewrite Hq in Hfull by done. cbn in Hfull. lia.
Qed.

End ChanFacts.

(** ** The store *)

Module StorageFacts.
Import Models Storage Notions.

(** A [Store] that stays within the capacity only appends. *)
Lemma Store_within ms e :
  Z.of_nat (length (logs ms)) + 1 <= maxLogs ms ->
  exists ms', Store ms e = Some ms' /\ logs ms' = logs ms ++ [e] /\
              maxLogs ms' = maxLogs ms.
Proof.
  intros Hlen. unfold Store. cbn [logs maxLogs].
  rewrite bool_decide_eq_false_2.
  - eexists. split; [reflexivity |]. by cbn.
  - rewrite length_app. cbn. lia.
Qed.

(** A [Store] beyond the capacity appends, then drops [maxLogs / 5]
    entries from the front. *)
Lemma Store_beyond ms e :
  0 <= maxLogs ms -> maxLogs ms < Z.of_nat (length (logs ms)) + 1 ->
  exists ms', Store ms e = Some ms' /\
              logs ms' = drop (Z.to_nat (maxLogs ms `quot` 5)) (logs ms ++ [e]) /\
              maxLogs ms' = maxLogs ms.
Proof.
  intros Hcap Hlen. unfold Store. cbn [logs maxLogs].
  rewrite bool_decide_eq_true_2 by (rewrite length_app; cbn; lia).
  unfold evictOldest. cbn [logs maxLogs].
  rewrite SliceFacts.slice_from_ok.
  - eexists. split; [reflexivity |]. unfold rebuildIndices. cbn [logs maxLogs].
    by destruct (rebuild_loop _ _ _ _).
  - rewrite length_app. cbn. Z.quot_rem_to_equations. lia.
Qed.

Lemma store_all_app ms l1 l2 :
  store_all ms (l1 ++ l2) =
  match store_all ms l1 with
  | Some ms' => store_all ms' l2
  | None => None
  end.
Proof.
  revert ms. induction l1 as [| e l1 IH]; intros ms; cbn; [done |].
  destruct (Store ms e); [apply IH | done].
Qed.

(** As long as the capacity is not exceeded, the stored sequence is the
    sequence of the entries stored. *)
Lemma store_all_within ms entries :
  Z.of_nat (length (logs ms)) + Z.of_nat (length entries) <= maxLogs ms ->
  exists ms', store_all ms entries = Some ms' /\
              logs ms' = logs ms ++ entries /\ maxLogs ms' = maxLogs ms.
Proof.
  revert ms. induction entries as [| e entries IH]; intros ms Hlen; cbn.
  - exists ms. by rewrite app_nil_r.
  - destruct (Store_within ms e) as (ms1 & -> & Hlogs & Hmax).
    { cbn in Hlen. lia. }
    destruct (IH ms1) as (ms' & Hall & Hlogs' & Hmax').
    { rewrite Hlogs, Hmax, length_app. cbn in *. lia. }
    exists ms'. split; [done |]. rewrite Hlogs', Hlogs, Hmax', Hmax.
    by rewrite <- app_assoc.
Qed.

Lemma NewMemoryStore_ok cap :
  0 <= cap -> LogEntry_size * cap <= GoInt.maxAlloc ->
  exists ms, NewMemoryStore cap = Some ms /\ logs ms = [] /\ maxLogs ms = cap.
Proof.
  intros Hcap Hsize. unfold NewMemoryStore.
  rewrite bool_decide_eq_false_2 by lia. eexists. by split.
Qed.

(** What the constructor returns, when it returns. *)
Lemma NewMemoryStore_inv cap ms :
  NewMemoryStore cap = Some ms ->
  ms = new_store cap /\ 0 <= cap /\ LogEntry_size * cap <= GoInt.maxAlloc.
Proof.
  unfold NewMemoryStore. case_bool_decide as Hbad; [done |].
  intros [= <-]. split; [done |]. lia.
Qed.

Lemma GetRecent_all ms :
  GetRecent ms (Z.of_nat (length (logs ms))) = Some (logs ms).
Proof.
  unfold GetRecent, GoInt.sub_int. rewrite Z.sub_diag.
  rewrite GoIntFacts.wrap_int_id
    by (unfold GoInt.in_int, GoInt.int_min, GoInt.int_max; lia).
  rewrite bool_decide_eq_false_2 by lia.
  rewrite SliceFacts.slice_from_ok by lia. done.
Qed.

(** C5. On a store that [NewMemoryStore] returned, storing [N] entries, [N]
    being at most the capacity, succeeds; afterwards [Count()] is [N] and
    [GetRecent(N)] is the sequence of the stored entries, in the order they
    were stored. *)
Theorem C5_count_and_recent (cap : Z) (ms0 : MemoryStore)
    (entries : list LogEntry) :
  NewMemoryStore cap = Some ms0 ->
  Z.of_nat (length entries) <= cap ->
  exists ms,
    store_all ms0 entries = Some ms /\
    Count ms = Z.of_nat (length entries) /\
    GetRecent ms (Z.of_nat (length entries)) = Some entries.
Proof.
  intros Hnew Hn.
  destruct (NewMemoryStore_inv cap ms0 Hnew) as (-> & _ & _).
  destruct (store_all_within (new_store cap) entries) as (ms & Hall & Hlogs & _).
  { cbn. lia. }
  cbn in Hlogs.
  exists ms. repeat split; try done.
  - unfold Count. by rewrite Hlogs.
  - rewrite <- Hlogs at 1 2. rewrite GetRecent_all. by rewrite Hlogs.
Qed.

Lemma sample_entries_length n : 0 <= n -> Z.of_nat (length (sample_entries n)) = n.
Proof.
  intros Hn. unfold sample_entries. rewrite length_map, length_seqZ. lia.
Qed.

(** Storing one entry more than the capacity: the last [Store] evicts. *)
Lemma store_all_overflow_once cap ms0 entries :
  NewMemoryStore cap = Some ms0 -> Z.of_nat (length entries) = cap + 1 ->
  exists ms,
    store_all ms0 entries = Some ms /\
    logs ms = drop (Z.to_nat (cap `quot` 5)) entries /\ maxLogs ms = cap.
Proof.
  intros Hnew Hlen.
  destruct (NewMemoryStore_inv cap ms0 Hnew) as (-> & Hcap & _).
  destruct (exists_last (l := entries)) as (init & last & ->).
  { intros ->. cbn in Hlen. lia. }
  rewrite length_app in Hlen. cbn in Hlen.
  destruct (store_all_within (new_store cap) init) as (ms1 & Hall & Hlogs1 & Hmax1).
  { cbn. lia. }
  cbn in Hlogs1, Hmax1.
  destruct (Store_beyond ms1 last) as (ms & Hst & Hlogs & Hmax).
  { lia. }
  { rewrite Hlogs1. lia. }
  exists ms. split.
  - rewrite store_all_app, Hall. cbn. by rewrite Hst.
  - rewrite Hlogs, Hlogs1, Hmax, Hmax1. done.
Qed.

Lemma most_recent_drop {A : Type} (k : nat) (l : list A) :
  (k <= length l)%nat -> drop k l = most_recent (length l - k) l.
Proof.
  intros Hk. unfold most_recent. f_equal. lia.
Qed.

(** C1 (amended). After [capacity + 1] entries were stored into a store that
    [NewMemoryStore] returned for a capacity of at least 5, [Count()] is
    [capacity + 1 - capacity / 5], which does not exceed the capacity, and the
    stored sequence is made of the most recent entries, in arrival order; for
    capacity 100000 that is 80001 entries. *)
Theorem C1_eviction_keeps_most_recent (cap : Z) (ms0 : MemoryStore)
    (entries : list LogEntry) :
  5 <= cap -> NewMemoryStore cap = Some ms0 ->
  Z.of_nat (length entries) = cap + 1 ->
  exists ms,
    store_all ms0 entries = Some ms /\
    Count ms = cap + 1 - cap `quot` 5 /\
    Count ms <= cap /\
    logs ms = most_recent (Z.to_nat (Count ms)) entries /\
    (cap = 100000 ->
     Count ms = 80001 /\ logs ms = most_recent (Z.to_nat 80001) entries).
Proof.
  intros Hcap Hnew Hlen.
  destruct (store_all_overflow_once cap ms0 entries Hnew Hlen)
    as (ms & Hall & Hlogs & _).
  assert (Hq : 1 <= cap `quot` 5 <= cap) by (Z.quot_rem_to_equations; lia).
  assert (Hcount : Count ms = cap + 1 - cap `quot` 5).
  { unfold Count. rewrite Hlogs, length_drop. lia. }
  assert (Hrecent : logs ms = most_recent (Z.to_nat (Count ms)) entries).
  { rewrite Hlogs, Hcount. rewrite most_recent_drop by lia. f_equal. lia. }
  exists ms. split; [exact Hall |]. split; [exact Hcount |].
  split; [lia |]. split; [exact Hrecent |].
  intros ->. split.
  - rewrite Hcount. done.
  - rewrite Hrecent, Hcount. done.
Qed.

(** With a capacity below 5 nothing is ever evicted: every [Store] call
    returns and the stored sequence is the sequence of all entries stored. *)
Lemma store_all_small_capacity ms entries :
  0 <= maxLogs ms < 5 ->
  exists ms', store_all ms entries = Some ms' /\
              logs ms' = logs ms ++ entries /\ maxLogs ms' = maxLogs ms.
Proof.
  revert ms. induction entries as [| e entries IH]; intros ms Hcap; cbn.
  - exists ms. by rewrite app_nil_r.
  - assert (Hq : maxLogs ms `quot` 5 = 0) by (Z.quot_rem_to_equations; lia).
    assert (exists ms1, Store ms e = Some ms1 /\ logs ms1 = logs ms ++ [e] /\
                        maxLogs ms1 = maxLogs ms) as (ms1 & -> & Hlogs & Hmax).
    { destruct (decide (Z.of_nat (length (logs ms)) + 1 <= maxLogs ms)) as [Hin | Hout].
      - by apply Store_within.
      - destruct (Store_beyond ms e) as (ms1 & ? & Hl & ?); [lia | lia |].
        exists ms1. rewrite Hq in Hl. by cbn in Hl. }
    destruct (IH ms1) as (ms' & Hall & Hlogs' & Hmax'); [lia |].
    exists ms'. split; [done |]. rewrite Hlogs', Hlogs, Hmax', Hmax.
    by rewrite <- app_assoc.
Qed.

(** C2 (the code at the failing inputs). For every capacity from 0 to 4 and
    every sequence of entries stored into a new store, all [Store] calls
    return and [Count()] is the number of entries stored, whatever the
    capacity. *)
Theorem C2_small_capacity_unbounded (cap : Z) (entries : list LogEntry) :
  0 <= cap < 5 ->
  exists ms0 ms,
    NewMemoryStore cap = Some ms0 /\ store_all ms0 entries = Some ms /\
    maxLogs ms = cap /\ Count ms = Z.of_nat (length entries).
Proof.
  intros Hcap.
  destruct (NewMemoryStore_ok cap) as (ms0 & Hnew & Hlogs0 & Hmax0);
    [lia | unfold LogEntry_size, GoInt.maxAlloc; lia |].
  destruct (store_all_small_capacity ms0 entries) as (ms & Hall & Hlogs & Hmax);
    [lia |].
  exists ms0, ms. repeat split; try done.
  - lia.
  - unfold Count. rewrite Hlogs, Hlogs0. done.
Qed.

(** *** What holds of every reachable store *)

Lemma Store_cases ms e ms' :
  0 <= maxLogs ms -> Store ms e = Some ms' ->
  maxLogs ms' = maxLogs ms /\
  (Z.of_nat (length (logs ms)) + 1 <= maxLogs ms /\ logs ms' = logs ms ++ [e]
   \/
   maxLogs ms < Z.of_nat (length (logs ms)) + 1 /\
   logs ms' = drop (Z.to_nat (maxLogs ms `quot` 5)) (logs ms ++ [e])).
Proof.
  intros Hcap Hst.
  destruct (decide (Z.of_nat (length (logs ms)) + 1 <= maxLogs ms)) as [Hin | Hout].
  - destruct (Store_within ms e Hin) as (ms1 & Hst1 & Hlogs & Hmax).
    rewrite Hst in Hst1. injection Hst1 as ->. split; [done |]. by left.
  - destruct (Store_beyond ms e) as (ms1 & Hst1 & Hlogs & Hmax); [lia | lia |].
    rewrite Hst in Hst1. injection Hst1 as ->. split; [done |]. right.
    split; [lia | done].
Qed.

Lemma reachable_capacity_nonneg ms : reachable ms -> 0 <= maxLogs ms.
Proof.
  induction 1 as [cap ms Hnew | ms e ms' _ IH Hst].
  - destruct (NewMemoryStore_inv cap ms Hnew) as (-> & Hcap & _). by cbn.
  - destruct (Store_cases ms e ms' IH Hst) as [-> _]. done.
Qed.

(** [Store] returns on every reachable store. *)
Lemma Store_total ms e : reachable ms -> exists ms', Store ms e = Some ms'.
Proof.
  intros Hr. pose proof (reachable_capacity_nonneg ms Hr) as Hcap.
  destruct (decide (Z.of_nat (length (logs ms)) + 1 <= maxLogs ms)) as [Hin | Hout].
  - destruct (Store_within ms e Hin) as (ms' & ? & _). by exists ms'.
  - destruct (Store_beyond ms e) as (ms' & ? & _); [lia | lia |]. by exists ms'.
Qed.

(** The capacity invariant holds from capacity 5 on. *)
Lemma capacity_invariant ms :
  reachable ms -> 5 <= maxLogs ms -> Count ms <= maxLogs ms.
Proof.
  unfold Count.
  induction 1 as [cap ms Hnew | ms e ms' Hr IH Hst]; intros Hcap.
  - destruct (NewMemoryStore_inv cap ms Hnew) as (-> & Hcap' & _).
    cbn in *. lia.
  - pose proof (reachable_capacity_nonneg ms Hr) as Hnn.
    destruct (Store_cases ms e ms' Hnn Hst) as [Hmax [[Hin Hlogs] | [Hout Hlogs]]];
      rewrite Hmax in *; rewrite Hlogs.
    + rewrite length_app. cbn. lia.
    + rewrite length_drop, length_app. cbn.
      specialize (IH Hcap).
      assert (1 <= maxLogs ms `quot` 5) by (Z.quot_rem_to_equations; lia).
      lia.
Qed.

(** *** [GetRecent] *)

(** C10 (amended). On a store whose length is an [int], and for every
    [int] [n]: when [n >= 0], [GetRecent(n)] returns the last
    [min(n, length)] entries; when [n < 0] and [length - n] is still an
    [int], the lower bound of the slice exceeds the length and the call
    panics; when [n < 0] and [length - n] overflows, the lower bound wraps
    to a negative number, is reset to 0, and the call returns the whole
    sequence. *)
Theorem C10_GetRecent_cases (ms : MemoryStore) (n : Z) :
  Count ms <= GoInt.int_max -> GoInt.in_int n ->
  (0 <= n ->
   GetRecent ms n =
     Some (most_recent (Z.to_nat (Z.min n (Count ms))) (logs ms))) /\
  (n < 0 -> Count ms - n <= GoInt.int_max -> GetRecent ms n = None) /\
  (n < 0 -> GoInt.int_max < Count ms - n -> GetRecent ms n = Some (logs ms)).
Proof.
  unfold Count, GoInt.in_int, GoInt.int_min, GoInt.int_max.
  intros Hlen Hn. unfold GetRecent, GoInt.sub_int.
  split; [| split].
  - intros Hpos.
    rewrite GoIntFacts.wrap_int_id
      by (unfold GoInt.in_int, GoInt.int_min, GoInt.int_max; lia).
    case_bool_decide as Hneg.
    + rewrite SliceFacts.slice_from_ok by lia. unfold most_recent.
      do 2 f_equal. lia.
    + rewrite SliceFacts.slice_from_ok by lia. unfold most_recent.
      do 2 f_equal. lia.
  - intros Hneg Hfit.
    rewrite GoIntFacts.wrap_int_id
      by (unfold GoInt.in_int, GoInt.int_min, GoInt.int_max; lia).
    rewrite bool_decide_eq_false_2 by lia.
    apply SliceFacts.slice_from_panics. lia.
  - intros Hneg Hover.
    rewrite GoIntFacts.wrap_int_above by (unfold GoInt.int_max; lia).
    rewrite bool_decide_eq_true_2 by lia.
    rewrite SliceFacts.slice_from_ok by lia. done.
Qed.

(** *** The indices *)

Lemma lookup_index_append `{Countable K} (m : gmap K (list nat)) k idx k' :
  default [] (index_append m k idx !! k') =
  default [] (m !! k') ++ (if bool_decide (k = k') then [idx] else []).
Proof.
  unfold index_append. case_bool_decide as Hk.
  - subst k'. by rewrite lookup_insert_eq.
  - rewrite lookup_insert_ne by done. by rewrite app_nil_r.
Qed.

Lemma rebuild_loop_snoc l e i byLevel byTime :
  rebuild_loop i (l ++ [e]) byLevel byTime =
  let r := rebuild_loop i l byLevel byTime in
  (index_append r.1 (Level e) (i + length l)%nat,
   index_append r.2 (timeBucket (Timestamp e)) (i + length l)%nat).
Proof.
  revert i byLevel byTime.
  induction l as [| x l IH]; intros i byLevel byTime; cbn.
  - by rewrite Nat.add_0_r.
  - rewrite IH. cbn. by rewrite Nat.add_succ_r.
Qed.

(** What the time index built by [rebuild_loop] holds under a bucket. *)
Lemma rebuild_loop_buckets l i byLevel byTime bucket :
  default [] ((rebuild_loop i l byLevel byTime).2 !! bucket) =
  default [] (byTime !! bucket) ++
  positions (fun e => bool_decide (timeBucket (Timestamp e) = bucket)) i l.
Proof.
  revert i byLevel byTime.
  induction l as [| x l IH]; intros i byLevel byTime; cbn.
  - by rewrite app_nil_r.
  - rewrite IH, lookup_index_append. by rewrite <- app_assoc.
Qed.

(** What the level index built by [rebuild_loop] holds under a level. *)
Lemma rebuild_loop_levels l i byLevel byTime lvl :
  default [] ((rebuild_loop i l byLevel byTime).1 !! lvl) =
  default [] (byLevel !! lvl) ++
  positions (fun e => bool_decide (Level e = lvl)) i l.
Proof.
  revert i byLevel byTime.
  induction l as [| x l IH]; intros i byLevel byTime; cbn.
  - by rewrite app_nil_r.
  - rewrite IH, lookup_index_append. by rewrite <- app_assoc.
Qed.

(** Index consistency is an invariant of the store. *)
Lemma reachable_consistent ms : reachable ms -> consistent ms.
Proof.
  unfold consistent.
  induction 1 as [cap ms Hnew | ms e ms' Hr IH Hst].
  - by destruct (NewMemoryStore_inv cap ms Hnew) as (-> & _ & _).
  - unfold Store in Hst. cbn [logs maxLogs] in Hst.
    case_bool_decide.
    + unfold evictOldest in Hst. cbn [logs maxLogs] in Hst.
      destruct (Slice.slice_from _ _) as [rest |]; [| done].
      injection Hst as <-. unfold rebuildIndices. cbn [logs].
      destruct (rebuild_loop 0 rest ∅ ∅) as [byLevel byTime] eqn:Hre.
      cbn. by rewrite Hre.
    + injection Hst as <-. cbn.
      rewrite rebuild_loop_snoc. cbn. by rewrite <- IH.
Qed.

(** Reading the sequence at the positions of the elements that satisfy [P]
    and keeping those that satisfy [Q] is filtering by both. *)
Lemma fetch_positions (P Q : LogEntry -> bool) (pre l : list LogEntry) :
  flat_map
    (fun idx =>
       match (pre ++ l) !! idx with
       | Some log => if Q log then [log] else []
       | None => []
       end)
    (positions P (length pre) l) =
  List.filter (fun e => P e && Q e) l.
Proof.
  revert pre. induction l as [| x l IH]; intros pre; [done |].
  cbn [positions List.filter]. rewrite flat_map_app.
  specialize (IH (pre ++ [x])).
  rewrite length_app, Nat.add_1_r, <- app_assoc in IH. cbn [app] in IH.
  rewrite IH. destruct (P x); cbn; [| done].
  rewrite list_lookup_middle by done. by destruct (Q x).
Qed.

Lemma timeBucket_mono t u : t <= u -> timeBucket t <= timeBucket u.
Proof.
  intros Htu. unfold timeBucket.
  pose proof (GoTimeFacts.Unix_mono t u Htu).
  Z.quot_rem_to_equations. lia.
Qed.

(** *** [GetByLevel] *)

Lemma lookup_positions (P : LogEntry -> bool) (pre l : list LogEntry) :
  omap (fun idx => (pre ++ l) !! idx) (positions P (length pre) l) =
  List.filter P l.
Proof.
  revert pre. induction l as [| x l IH]; intros pre; [done |].
  cbn [positions List.filter]. rewrite omap_app.
  specialize (IH (pre ++ [x])).
  rewrite length_app, Nat.add_1_r, <- app_assoc in IH. cbn [app] in IH.
  rewrite IH. destruct (P x); cbn; [| done].
  by rewrite list_lookup_middle.
Qed.

(** On a reachable store [GetByLevel] returns the stored entries of that
    level, in arrival order. *)
Lemma GetByLevel_exact ms lvl :
  reachable ms ->
  GetByLevel ms lvl = List.filter (fun e => bool_decide (Level e = lvl)) (logs ms).
Proof.
  intros Hr. pose proof (reachable_consistent ms Hr) as Hc.
  unfold consistent in Hc. unfold GetByLevel.
  pose proof (rebuild_loop_levels (logs ms) 0 ∅ ∅ lvl) as Hl.
  rewrite <- Hc in Hl. cbn [fst] in Hl. rewrite lookup_empty in Hl.
  cbn [default app] in Hl. rewrite Hl.
  apply (lookup_positions _ [] (logs ms)).
Qed.

(** *** [GetByTimeRange] *)

(** From the epoch on, the bucket the code computes is the floor bucket;
    before it the two differ, the division of the code truncating toward
    zero. *)
Lemma timeBucket_floor t : 0 <= t -> timeBucket t = floor_bucket t.
Proof.
  intros Ht. unfold timeBucket, floor_bucket, GoTime.Unix.
  change GoTime.Minute with 60000000000.
  Z.quot_rem_to_equations. Z.div_mod_to_equations. lia.
Qed.

Lemma filter_none {A : Type} (P : A -> bool) (l : list A) :
  (forall x, P x = false) -> List.filter P l = [].
Proof.
  intros HP. induction l as [| x l IH]; [done |]. cbn. by rewrite HP.
Qed.

Lemma flat_map_none {A B : Type} (f : A -> list B) (l : list A) :
  (forall x, f x = []) -> flat_map f l = [].
Proof.
  intros Hf. induction l as [| x l IH]; [done |]. cbn. by rewrite Hf, IH.
Qed.


(** The condition on the bucket follows from the condition on the
    timestamp. *)
Lemma GetByTimeRange_in (ms : MemoryStore) (start end_ : GoTime.Time) e :
  reachable ms ->
  In e (GetByTimeRange ms start end_) <->
  In e (logs ms) /\ start <= Timestamp e <= end_.
Proof.
  intros Hr.
  assert (Hc : consistent ms) by by apply reachable_consistent.
  unfold GetByTimeRange. fold (timeBucket start). fold (timeBucket end_).
  rewrite in_flat_map. split.
  - intros (bucket & _ & Hin).
    destruct (buckets (indexByTime ms) !! bucket) as [indices |]; [| done].
    apply in_flat_map in Hin as (idx & _ & Hin).
    destruct (logs ms !! idx) as [log |] eqn:Hlog; [| done].
    destruct (negb _ && negb _) eqn:Hw; [| done].
    destruct Hin as [<- | []]. split.
    + apply list_elem_of_In. by eapply list_elem_of_lookup_2.
    + by apply GoTimeFacts.within_spec.
  - intros [Hlog Hw].
    pose proof (timeBucket_mono start (Timestamp e) ltac:(lia)).
    pose proof (timeBucket_mono (Timestamp e) end_ ltac:(lia)).
    exists (timeBucket (Timestamp e)). split.
    + apply list_elem_of_In, elem_of_seqZ. lia.
    + pose proof (rebuild_loop_buckets (logs ms) 0 ∅ ∅
                    (timeBucket (Timestamp e))) as Hb.
      unfold consistent in Hc. rewrite <- Hc in Hb. cbn [snd] in Hb.
      rewrite lookup_empty in Hb. cbn [default app] in Hb.
      pose proof (fetch_positions
                    (fun x => bool_decide (timeBucket (Timestamp x)
                                           = timeBucket (Timestamp e)))
                    (fun x => negb (GoTime.Before (Timestamp x) start)
                              && negb (GoTime.After (Timestamp x) end_))
                    [] (logs ms)) as Hf.
      cbn [app length] in Hf. rewrite <- Hb in Hf.
      assert (Hin : In e (List.filter
                   (fun x => bool_decide (timeBucket (Timestamp x)
                                          = timeBucket (Timestamp e))
                             && (negb (GoTime.Before (Timestamp x) start)
                                 && negb (GoTime.After (Timestamp x) end_)))
                   (logs ms))).
      { apply filter_In. split; [done |].
        rewrite andb_true_iff, bool_decide_eq_true. split; [done |].
        by apply GoTimeFacts.within_spec. }
      rewrite <- Hf in Hin.
      destruct (buckets (indexByTime ms) !! timeBucket (Timestamp e));
        [done |]. by cbn in Hin.
Qed.

(** *** Instances *)

Lemma store_all_reachable ms entries ms' :
  reachable ms -> store_all ms entries = Some ms' -> reachable ms'.
Proof.
  revert ms. induction entries as [| e entries IH]; intros ms Hr Hall; cbn in Hall.
  - by injection Hall as <-.
  - destruct (Store ms e) as [ms1 |] eqn:Hst; [| done].
    apply (IH ms1); [| done]. by eapply reachable_store.
Qed.

Lemma store_of_reachable cap entries ms :
  store_of cap entries = Some ms -> reachable ms.
Proof.
  unfold store_of. destruct (NewMemoryStore cap) as [ms0 |] eqn:Hnew; [| done].
  apply store_all_reachable. by eapply reachable_new.
Qed.

Lemma C5_witness :
  exists ms,
    store_all (new_store 5) (sample_entries 3) = Some ms /\
    Count ms = 3 /\
    GetRecent ms 3 = Some (sample_entries 3).
Proof.
  apply (C5_count_and_recent 5 (new_store 5) (sample_entries 3)).
  - vm_compute. reflexivity.
  - vm_compute. discriminate.
Defined.

Lemma C1_witness :
  exists ms,
    store_all (new_store 100000) (sample_entries 100001) = Some ms /\
    Count ms = 100000 + 1 - 100000 `quot` 5 /\
    Count ms <= 100000 /\
    logs ms = most_recent (Z.to_nat (Count ms)) (sample_entries 100001) /\
    (100000 = 100000 ->
     Count ms = 80001 /\
     logs ms = most_recent (Z.to_nat 80001) (sample_entries 100001)).
Proof.
  apply (C1_eviction_keeps_most_recent 100000 (new_store 100000)
           (sample_entries 100001)).
  - lia.
  - vm_compute. reflexivity.
  - rewrite sample_entries_length; lia.
Defined.

(** At capacity 100000 the store holds 80001 entries, not 80000, after the
    eviction triggered by entry number 100001. *)
Lemma C1_counterexample :
  exists ms0 ms,
    NewMemoryStore 100000 = Some ms0 /\
    store_all ms0 (sample_entries 100001) = Some ms /\
    Count ms = 80001 /\ Count ms <> 80000.
Proof.
  assert (Hnew : NewMemoryStore 100000 = Some (new_store 100000))
    by (vm_compute; reflexivity).
  destruct (store_all_overflow_once 100000 (new_store 100000)
              (sample_entries 100001) Hnew)
    as (ms & Hall & Hlogs & _).
  - rewrite sample_entries_length; lia.
  - assert (Hcount : Count ms = 80001).
    { unfold Count. rewrite Hlogs, length_drop.
      pose proof (sample_entries_length 100001 ltac:(lia)) as Hlen.
      change (100000 `quot` 5) with 20000. lia. }
    exists (new_store 100000), ms.
    split; [exact Hnew |]. split; [exact Hall |]. split; [exact Hcount |].
    rewrite Hcount. lia.
Qed.

Lemma C2_witness :
  exists ms0 ms,
    NewMemoryStore 4 = Some ms0 /\
    store_all ms0 (sample_entries 7) = Some ms /\
    maxLogs ms = 4 /\ Count ms = Z.of_nat (length (sample_entries 7)).
Proof.
  apply (C2_small_capacity_unbounded 4 (sample_entries 7)). lia.
Defined.

(** A store of capacity 4 that holds 7 entries after 7 [Store] calls. *)
Lemma capacity_4_holds_7 :
  exists ms, store_of 4 (sample_entries 7) = Some ms /\
             maxLogs ms = 4 /\ Count ms = 7.
Proof. eexists. split; [vm_compute; reflexivity |]. by split. Qed.

Lemma sample_store_reachable : reachable sample_store.
Proof.
  apply (store_of_reachable 10 (minute_entries 4)). vm_compute. reflexivity.
Qed.



(** The entries stamped exactly [start] and exactly [end] are returned; the
    entries one bucket before and one bucket after are not. *)
Lemma GetByTimeRange_endpoints :
  GetByTimeRange sample_store (60 * GoTime.Second) (120 * GoTime.Second) =
  [sample_entry LevelError 60; sample_entry LevelError 120] /\
  logs sample_store =
  [sample_entry LevelError 0; sample_entry LevelError 60;
   sample_entry LevelError 120; sample_entry LevelError 180].
Proof. split; vm_compute; reflexivity. Qed.

Lemma C10_witness :
  (0 <= 2 ->
   GetRecent sample_store 2 =
     Some (most_recent (Z.to_nat (Z.min 2 (Count sample_store)))
             (logs sample_store))) /\
  (2 < 0 -> Count sample_store - 2 <= GoInt.int_max ->
   GetRecent sample_store 2 = None) /\
  (2 < 0 -> GoInt.int_max < Count sample_store - 2 ->
   GetRecent sample_store 2 = Some (logs sample_store)).
Proof.
  apply (C10_GetRecent_cases sample_store 2).
  - vm_compute. discriminate.
  - vm_compute. split; discriminate.
Defined.

(** [GetRecent(-1)] panics on the sample store. *)
Lemma GetRecent_minus_one : GetRecent sample_store (-1) = None.
Proof. vm_compute. reflexivity. Qed.

(** For the least [int], [len - n] overflows and [GetRecent] returns the
    whole sequence instead of panicking. *)
Lemma C10_counterexample :
  GoInt.int_min < 0 /\
  GetRecent sample_store GoInt.int_min = Some (logs sample_store) /\
  GetRecent sample_store GoInt.int_min <> None.
Proof.
  split; [done |].
  assert (H : GetRecent sample_store GoInt.int_min = Some (logs sample_store))
    by (vm_compute; reflexivity).
  split; [exact H |]. by rewrite H.
Qed.

End StorageFacts.

(** ** The alert evaluator *)

Module AlertingFacts.
Import Alerting Notions.

(** *** Substring search *)

Lemma append_nil_l s : EmptyString +:+ s = s.
Proof. reflexivity. Qed.
Lemma append_cons a s t : String a s +:+ t = String a (s +:+ t).
Proof. reflexivity. Qed.

Lemma length_append s t :
  String.length (s +:+ t) = (String.length s + String.length t)%nat.
Proof. induction s as [| a s IH]; [done |]. rewrite append_cons. cbn. by rewrite IH. Qed.

Lemma substring_nil i n : substring i n EmptyString = EmptyString.
Proof. by destruct i, n. Qed.

Lemma substring_prefix p s :
  substring 0 (String.length p) s = p <-> exists post, s = p +:+ post.
Proof.
  revert s. induction p as [| a p IH]; intros s.
  - split; [intros _; by exists s |]. intros _. by destruct s.
  - destruct s as [| b s]; cbn [String.length substring].
    + split; [done |]. intros [post Hp]. by rewrite append_cons in Hp.
    + split.
      * intros Heq. injection Heq as -> Hs. apply IH in Hs as [post ->].
        by exists post.
      * intros [post Hp]. rewrite append_cons in Hp. injection Hp as -> ->.
        f_equal. apply IH. by exists post.
Qed.

Lemma substring_at j p s :
  (j + String.length p <= String.length s)%nat ->
  substring j (String.length p) s = p <->
  exists pre post, s = pre +:+ p +:+ post /\ String.length pre = j.
Proof.
  revert s. induction j as [| j IH]; intros s Hlen.
  - rewrite substring_prefix. split.
    + intros [post ->]. by exists EmptyString, post.
    + intros (pre & post & -> & Hpre). destruct pre; [| done]. by exists post.
  - destruct s as [| b s]; [cbn in Hlen; lia |].
    cbn [substring]. rewrite IH by (cbn in Hlen; lia). split.
    + intros (pre & post & -> & <-). by exists (String b pre), post.
    + intros (pre & post & Hs & Hpre). destruct pre as [| c pre]; [done |].
      rewrite append_cons in Hs. injection Hs as -> ->. cbn in Hpre.
      exists pre, post. split; [done | lia].
Qed.

Lemma contains_loop_spec fuel i s sub :
  contains_loop fuel i s sub = true <->
  exists j, (i <= j < i + fuel)%nat /\ substring j (String.length sub) s = sub.
Proof.
  revert i. induction fuel as [| fuel IH]; intros i; cbn [contains_loop].
  - split; [done |]. intros (j & ? & _). lia.
  - destruct (String.eqb_spec (substring i (String.length sub) s) sub) as [Heq | Hne].
    + split; [| done]. intros _. exists i. split; [lia | done].
    + rewrite IH. split.
      * intros (j & ? & ?). exists j. split; [lia | done].
      * intros (j & ? & Hj). exists j. split; [| done].
        destruct (decide (j = i)) as [-> |]; [done | lia].
Qed.

Lemma contains_spec s sub :
  contains s sub = true <-> is_substring sub s.
Proof.
  unfold contains, is_substring, len. rewrite contains_loop_spec. split.
  - intros (j & Hj & Hsub). apply substring_at in Hsub; [| lia].
    destruct Hsub as (pre & post & -> & _). by exists pre, post.
  - intros (pre & post & ->). exists (String.length pre).
    rewrite !length_append. split; [lia |].
    apply substring_at; [rewrite !length_append; lia |]. by exists pre, post.
Qed.

Lemma containsPattern_spec message pattern :
  containsPattern message pattern = true <-> is_substring pattern message.
Proof.
  unfold containsPattern, len.
  rewrite orb_true_iff, andb_true_iff, !bool_decide_eq_true, contains_spec.
  split.
  - intros [Hempty | [_ Hsub]]; [| done].
    destruct pattern; [| done]. by exists EmptyString, message.
  - intros Hsub. right. split; [| done].
    destruct Hsub as (pre & post & ->). rewrite !length_append. lia.
Qed.

(** *** The count of [shouldTriggerAlert] *)

Lemma countedb_spec rule now log :
  countedb rule now log = true <-> counted rule now log.
Proof.
  unfold countedb, counted.
  rewrite !andb_true_iff, orb_true_iff, !bool_decide_eq_true,
    containsPattern_spec.
  tauto.
Qed.

Lemma count_step_counted rule now count log :
  count_step rule (now - Window rule) count log =
  if countedb rule now log then count + 1 else count.
Proof.
  unfold count_step, countedb, GoTime.After.
  by repeat case_bool_decide; cbn; try done; destruct (containsPattern _ _).
Qed.

Lemma count_loop_counted rule now logs count :
  fold_left (count_step rule (now - Window rule)) logs count =
  count + matching_count rule now logs.
Proof.
  unfold matching_count. revert count.
  induction logs as [| log logs IH]; intros count; cbn [fold_left List.filter].
  - cbn. lia.
  - rewrite IH, count_step_counted.
    destruct (countedb rule now log); cbn [length]; lia.
Qed.

(** The decision of [shouldTriggerAlert] for a rule whose window can be
    negated. *)
Lemma shouldTriggerAlert_at_spec am rule now :
  GoInt.int_min < Window rule <= GoInt.int_max ->
  shouldTriggerAlert_at am rule now =
  bool_decide (Threshold rule <= matching_count rule now (recentLogs am)).
Proof.
  intros Hw. unfold shouldTriggerAlert_at, GoTime.Add.
  rewrite GoIntFacts.neg_int_id by done.
  replace (now + - Window rule) with (now - Window rule) by lia.
  rewrite count_loop_counted. apply bool_decide_ext. lia.
Qed.

(** *** The retention horizon *)

Lemma max_window_loop_bounds rs start :
  let m := fold_left
             (fun max rule => if bool_decide (Window rule > max)
                              then Window rule else max) rs start in
  start <= m /\ (forall r, In r rs -> Window r <= m) /\
  (m = start \/ exists r, In r rs /\ m = Window r).
Proof.
  revert start. induction rs as [| rule rs IH]; intros start; cbn.
  - split; [lia |]. split; [done | by left].
  - specialize (IH (if bool_decide (Window rule > start)
                    then Window rule else start)).
    cbn in IH. destruct IH as (Hle & Hall & Hex).
    case_bool_decide as Hgt.
    + split; [lia |]. split.
      * intros r [<- | Hr]; [lia | by apply Hall].
      * right. destruct Hex as [-> | (r & Hr & ->)]; [by exists rule; auto |].
        exists r. auto.
    + split; [lia |]. split.
      * intros r [<- | Hr]; [lia | by apply Hall].
      * destruct Hex as [-> | (r & Hr & ->)]; [by left |].
        right. exists r. auto.
Qed.

Lemma getMaxWindow_bounds am :
  GoTime.Minute <= getMaxWindow am /\
  (forall r, In r (rules am) -> Window r <= getMaxWindow am) /\
  (getMaxWindow am = GoTime.Minute \/
   exists r, In r (rules am) /\ getMaxWindow am = Window r).
Proof. apply max_window_loop_bounds. Qed.

(** *** The loop over the rules *)

Lemma check_rules_cons clock DS am rule rs ch k :
  check_rules clock DS am (rule :: rs) ch k =
  if shouldTriggerAlert_at am rule (clock k) then
    match Chan.try_send ch (alert_of DS rule (clock (S k))) with
    | None => None
    | Some (sent, ch') =>
        match check_rules clock DS am rs ch' (S (S k)) with
        | Some (r, k') =>
            Some ((r.1, (alert_of DS rule (clock (S k)), sent) :: r.2), k')
        | None => None
        end
    end
  else check_rules clock DS am rs ch (S k).
Proof.
  cbn [check_rules]. unfold bind at 1. unfold shouldTriggerAlert, bind, time_Now, ret.
  destruct (shouldTriggerAlert_at am rule (clock k)); [| done].
  fold (alert_of DS rule (clock (S k))).
  destruct (Chan.try_send ch _) as [[sent ch'] |]; [| done].
  by destruct (check_rules clock DS am rs ch' (S (S k))) as [[r k'] |].
Qed.

(** On an open channel the loop returns, whatever the clock. *)
Lemma check_rules_total clock DS am rs ch k :
  Chan.closed ch = false ->
  exists ch' tr k',
    check_rules clock DS am rs ch k = Some ((ch', tr), k') /\
    Chan.closed ch' = false.
Proof.
  revert ch k. induction rs as [| rule rs IH]; intros ch k Hopen.
  - exists ch, [], k. by split.
  - rewrite check_rules_cons.
    destruct (shouldTriggerAlert_at am rule (clock k)); [| by apply IH].
    destruct (ChanFacts.try_send_open ch (alert_of DS rule (clock (S k))) Hopen)
      as (sent & ch1 & -> & Hopen1).
    destruct (IH ch1 (S (S k)) Hopen1) as (ch' & tr & k' & -> & Hopen').
    by eexists _, _, _.
Qed.

(** Every alert the loop constructs is the alert of one of the rules, which
    [shouldTriggerAlert] accepted at a reading of the clock. *)
Lemma check_rules_alerts clock DS am rs ch k ch' tr k' :
  check_rules clock DS am rs ch k = Some ((ch', tr), k') ->
  forall a sent, In (a, sent) tr ->
  exists rule i,
    In rule rs /\ shouldTriggerAlert_at am rule (clock i) = true /\
    a = alert_of DS rule (clock (S i)).
Proof.
  revert ch k ch' tr k'.
  induction rs as [| rule rs IH]; intros ch k ch' tr k' Hrun a sent Hin.
  - injection Hrun as <- <- <-. done.
  - rewrite check_rules_cons in Hrun.
    destruct (shouldTriggerAlert_at am rule (clock k)) eqn:Hfire.
    + destruct (Chan.try_send ch _) as [[sent1 ch1] |]; [| done].
      destruct (check_rules clock DS am rs ch1 (S (S k))) as [[[ch2 tr2] k2] |] eqn:Hrest;
        [| done].
      injection Hrun as <- <- <-. destruct Hin as [Hhd | Htl].
      * injection Hhd as <- <-. exists rule, k. split; [by left | done].
      * destruct (IH _ _ _ _ _ Hrest a sent Htl) as (r & i & Hr & Hf & ->).
        exists r, i. split; [by right | done].
    + destruct (IH _ _ _ _ _ Hrun a sent Hin) as (r & i & Hr & Hf & ->).
      exists r, i. split; [by right | done].
Qed.

(** The loop decides each rule at its own clock reading: [ticks] lists, rule
    by rule, the index of the reading taken by [shouldTriggerAlert]; the
    alert of a rule that fires is stamped with the next reading. *)
Lemma check_rules_spec clock DS am rs ch k :
  Chan.closed ch = false ->
  (forall r, In r rs -> GoInt.int_min < Window r <= GoInt.int_max) ->
  exists ch' tr k' ticks,
    check_rules clock DS am rs ch k = Some ((ch', tr), k') /\
    length ticks = length rs /\
    Forall (fun i => (k <= i)%nat) ticks /\
    map fst tr =
      map (fun ri => alert_of DS ri.1 (clock (S ri.2)))
        (List.filter
           (fun ri => bool_decide
                        (Threshold ri.1 <=
                         matching_count ri.1 (clock ri.2) (recentLogs am)))
           (combine rs ticks)).
Proof.
  revert ch k. induction rs as [| rule rs IH]; intros ch k Hopen Hw.
  - exists ch, [], k, []. by repeat split.
  - assert (Hw' : forall r, In r rs -> GoInt.int_min < Window r <= GoInt.int_max)
      by (intros r Hr; apply Hw; by right).
    rewrite check_rules_cons.
    rewrite shouldTriggerAlert_at_spec by (apply Hw; by left).
    destruct (bool_decide _) eqn:Hfire.
    + destruct (ChanFacts.try_send_open ch (alert_of DS rule (clock (S k))) Hopen)
        as (sent & ch1 & -> & Hopen1).
      destruct (IH ch1 (S (S k)) Hopen1 Hw')
        as (ch' & tr & k' & ticks & -> & Hlen & Hticks & Htr).
      exists ch', ((alert_of DS rule (clock (S k)), sent) :: tr), k', (k :: ticks).
      split; [done |]. split; [cbn; by rewrite Hlen |]. split.
      * constructor; [lia |]. eapply Forall_impl; [exact Hticks |].
        cbn. intros i Hi. lia.
      * cbn [combine List.filter fst snd]. rewrite Hfire. cbn. by rewrite Htr.
    + destruct (IH ch (S k) Hopen Hw')
        as (ch' & tr & k' & ticks & -> & Hlen & Hticks & Htr).
      exists ch', tr, k', (k :: ticks).
      split; [done |]. split; [cbn; by rewrite Hlen |]. split.
      * constructor; [lia |]. eapply Forall_impl; [exact Hticks |].
        cbn. intros i Hi. lia.
      * cbn [combine List.filter fst snd]. by rewrite Hfire.
Qed.

(** *** [ProcessLog] *)

Lemma ProcessLog_unfold clock DS am log k :
  ProcessLog clock DS am log k =
  let am2 :=
    {| rules := rules am; alertChannel := alertChannel am;
       recentLogs :=
         cleanOldLogs (recentLogs am ++ [summary log])
           (GoTime.Add (clock k) (GoInt.neg_int (getMaxWindow am))) |} in
  match check_rules clock DS am2 (rules am) (alertChannel am) (S k) with
  | Some (r, k') =>
      Some (({| rules := rules am; alertChannel := r.1;
                recentLogs := recentLogs am2 |}, r.2), k')
  | None => None
  end.
Proof.
  unfold ProcessLog, bind, time_Now, ret. cbn [rules alertChannel recentLogs].
  fold (summary log).
  by destruct (check_rules _ _ _ _ _ _) as [[r k'] |].
Qed.

Lemma getMaxWindow_negated am :
  (forall r, In r (rules am) -> Window r <= GoInt.int_max) ->
  GoInt.neg_int (getMaxWindow am) = - getMaxWindow am.
Proof.
  intros Hw. apply GoIntFacts.neg_int_id.
  destruct (getMaxWindow_bounds am) as (Hmin & _ & Hex).
  assert (Hmax : getMaxWindow am <= GoInt.int_max).
  { destruct Hex as [Heq | (r & Hr & Heq)]; rewrite Heq; [| by apply Hw].
    unfold GoInt.int_max, GoTime.Minute, GoTime.Second. lia. }
  unfold GoInt.int_min, GoInt.int_max, GoTime.Minute, GoTime.Second in *. lia.
Qed.

(** C3 (amended). With the alert channel open and rule windows that are
    [int64] values other than the least one, [ProcessLog] returns and decides
    each rule at its own clock reading [now] (the readings follow the first
    reading of the call): it constructs one alert for each rule, in order,
    whose count reaches the rule's threshold, and none for the other rules.
    The count of a rule is the number of window entries (after the pruning of
    this call) of the rule's level, whose message contains the rule's pattern
    when the pattern is not empty, and whose timestamp is strictly after
    [now - rule.Window]; no upper bound is checked.  In particular, with the
    rule (ERROR, threshold 3, window 30s) and ERROR entries stamped 20s, 10s
    and 0s before the clock value, the first two calls construct no alert and
    the third constructs exactly one. *)
Theorem C3_rule_evaluation :
  (forall (clock : nat -> GoTime.Time) (DS : GoTime.Duration -> string)
          (am : AlertManager) (log : Models.LogEntry) (k : nat),
     Chan.closed (alertChannel am) = false ->
     (forall r, In r (rules am) -> GoInt.int_min < Window r <= GoInt.int_max) ->
     exists am' alerts k' ticks,
       ProcessLog clock DS am log k = Some ((am', alerts), k') /\
       rules am' = rules am /\
       length ticks = length (rules am) /\
       Forall (fun i => (k < i)%nat) ticks /\
       map fst alerts =
         map (fun ri => alert_of DS ri.1 (clock (S ri.2)))
           (List.filter
              (fun ri => bool_decide
                           (Threshold ri.1 <=
                            matching_count ri.1 (clock ri.2) (recentLogs am')))
              (combine (rules am) ticks)))
  /\
  (forall r now l, countedb r now l = true <-> counted r now l)
  /\
  (let clock := frozen (100 * GoTime.Second) in
   let e := sample_entry Models.LevelError in
   exists am1 am2 am3 a k1 k2 k3,
     ProcessLog clock seconds_String (manager_with [three_errors]) (e 80) 0%nat
       = Some ((am1, []), k1) /\
     ProcessLog clock seconds_String am1 (e 90) k1 = Some ((am2, []), k2) /\
     ProcessLog clock seconds_String am2 (e 100) k2
       = Some ((am3, [(a, true)]), k3) /\
     RuleName a = Name three_errors).
Proof.
  split; [| split].
  - intros clock DS am log k Hopen Hw. rewrite ProcessLog_unfold. cbn zeta.
    set (am2 := {| rules := rules am; alertChannel := alertChannel am;
                   recentLogs := _ |}).
    destruct (check_rules_spec clock DS am2 (rules am) (alertChannel am) (S k)
                Hopen Hw) as (ch' & tr & k' & ticks & -> & Hlen & Hticks & Htr).
    eexists _, _, _, ticks. split; [reflexivity |]. split; [done |].
    split; [done |]. split; [| exact Htr].
    eapply Forall_impl; [exact Hticks |]. cbn. intros i Hi. lia.
  - intros r now l. apply countedb_spec.
  - cbn zeta. eexists _, _, _, _, _, _, _.
    split; [vm_compute; reflexivity |].
    split; [vm_compute; reflexivity |].
    split; [vm_compute; reflexivity |]. reflexivity.
Qed.

(** C4 (amended). The retention horizon is the larger of one minute and the
    widest rule window: [getMaxWindow] is at least one minute and at least
    every rule window, and it is one minute or the window of some rule.  With
    the alert channel open and rule windows within [int64], [ProcessLog]
    returns and keeps in the rolling window exactly the entries (the new one
    included) whose timestamp is strictly after [now - horizon], [now] being
    the first clock reading of the call. *)
Theorem C4_retention_horizon (clock : nat -> GoTime.Time)
    (DS : GoTime.Duration -> string) (am : AlertManager)
    (log : Models.LogEntry) (k : nat) :
  Chan.closed (alertChannel am) = false ->
  (forall r, In r (rules am) -> Window r <= GoInt.int_max) ->
  (GoTime.Minute <= getMaxWindow am /\
   (forall r, In r (rules am) -> Window r <= getMaxWindow am) /\
   (getMaxWindow am = GoTime.Minute \/
    exists r, In r (rules am) /\ getMaxWindow am = Window r)) /\
  exists am' alerts k',
    ProcessLog clock DS am log k = Some ((am', alerts), k') /\
    recentLogs am' =
      List.filter
        (fun l => bool_decide (clock k - getMaxWindow am < timestamp l))
        (recentLogs am ++ [summary log]).
Proof.
  intros Hopen Hw. split; [apply getMaxWindow_bounds |].
  rewrite ProcessLog_unfold. cbn zeta.
  set (am2 := {| rules := rules am; alertChannel := alertChannel am;
                 recentLogs := _ |}).
  destruct (check_rules_total clock DS am2 (rules am) (alertChannel am) (S k)
              Hopen) as (ch' & tr & k' & -> & _).
  eexists _, _, _. split; [reflexivity |]. cbn [recentLogs]. subst am2.
  cbn [recentLogs]. rewrite getMaxWindow_negated by done.
  unfold cleanOldLogs, GoTime.Add, GoTime.After.
  apply List.filter_ext. intros l. apply bool_decide_ext. lia.
Qed.

(** C9. Every alert constructed by [ProcessLog] belongs to one of the
    configured rules, which [shouldTriggerAlert] accepted on the pruned
    window: it carries the rule's name, the rule's threshold as its [Count],
    and a message rendered from the rule's name, threshold, level and window.
    The number of matching entries is not reported: with a threshold of 1 and
    two matching entries in the window the alert's [Count] is 1. *)
Theorem C9_alert_count_is_threshold :
  (forall (clock : nat -> GoTime.Time) (DS : GoTime.Duration -> string)
          (am : AlertManager) (log : Models.LogEntry) (k : nat)
          am' alerts k',
     ProcessLog clock DS am log k = Some ((am', alerts), k') ->
     forall a sent, In (a, sent) alerts ->
     exists rule i,
       In rule (rules am) /\
       shouldTriggerAlert_at am' rule (clock i) = true /\
       RuleName a = Name rule /\
       Count a = Threshold rule /\
       Message a =
         "Alert: " +:+ Name rule +:+ " triggered! " +:+ pretty (Threshold rule)
         +:+ " " +:+ Level rule +:+ " logs in last " +:+ DS (Window rule))
  /\
  (let now := 100 * GoTime.Second in
   let e := sample_entry Models.LevelError in
   exists am1 am2 a k1 k2,
     ProcessLog (frozen now) seconds_String (manager_with [one_error]) (e 90) 0%nat
       = Some ((am1, [(alert_of seconds_String one_error now, true)]), k1) /\
     ProcessLog (frozen now) seconds_String am1 (e 100) k1
       = Some ((am2, [(a, true)]), k2) /\
     matching_count one_error now (recentLogs am2) = 2 /\
     Count a = 1).
Proof.
  split.
  - intros clock DS am log k am' alerts k' Hrun a sent Hin.
    rewrite ProcessLog_unfold in Hrun. cbn zeta in Hrun.
    destruct (check_rules _ _ _ _ _ _) as [[[ch' tr] k''] |] eqn:Hloop; [| done].
    injection Hrun as <- <- <-.
    destruct (check_rules_alerts _ _ _ _ _ _ _ _ _ Hloop a sent Hin)
      as (rule & i & Hrule & Hfire & ->).
    exists rule, i. by repeat split.
  - cbn zeta. eexists _, _, _, _, _.
    split; [vm_compute; reflexivity |].
    split; [vm_compute; reflexivity |].
    split; [vm_compute; reflexivity |]. reflexivity.
Qed.

(** *** Instances *)

Lemma C3_witness :
  exists am' alerts k' ticks,
    ProcessLog (frozen (100 * GoTime.Second)) seconds_String
      (manager_with [three_errors]) (sample_entry Models.LevelError 80) 0%nat
      = Some ((am', alerts), k') /\
    rules am' = rules (manager_with [three_errors]) /\
    length ticks = length (rules (manager_with [three_errors])) /\
    Forall (fun i => (0 < i)%nat) ticks /\
    map fst alerts =
      map (fun ri => alert_of seconds_String ri.1
                       (frozen (100 * GoTime.Second) (S ri.2)))
        (List.filter
           (fun ri => bool_decide
                        (Threshold ri.1 <=
                         matching_count ri.1
                           (frozen (100 * GoTime.Second) ri.2) (recentLogs am')))
           (combine (rules (manager_with [three_errors])) ticks)).
Proof.
  apply (proj1 C3_rule_evaluation).
  - reflexivity.
  - intros r [<- | []]. vm_compute. split; [reflexivity | discriminate].
Defined.

(** With a threshold of 1 and a window of 30s at [now] = 100s: an ERROR entry
    stamped exactly [now - 30s] lies in the closed interval but raises no
    alert, and an ERROR entry stamped 30s after [now] lies outside the closed
    interval but raises one. *)
Lemma C3_counterexample :
  let now := 100 * GoTime.Second in
  let am := manager_with [one_error] in
  let e := sample_entry Models.LevelError in
  (exists am' k',
     ProcessLog (frozen now) seconds_String am (e 70) 0%nat
       = Some ((am', []), k') /\
     closed_interval_count one_error now (recentLogs am') = 1 /\
     Threshold one_error = 1)
  /\
  (exists am' a k',
     ProcessLog (frozen now) seconds_String am (e 130) 0%nat
       = Some ((am', [(a, true)]), k') /\
     closed_interval_count one_error now (recentLogs am') = 0 /\
     Threshold one_error = 1).
Proof.
  cbn zeta. split.
  - eexists _, _. split; [vm_compute; reflexivity |]. by split.
  - eexists _, _, _. split; [vm_compute; reflexivity |]. by split.
Qed.

Lemma C4_witness :
  (GoTime.Minute <= getMaxWindow (manager_with [one_error]) /\
   (forall r, In r (rules (manager_with [one_error])) ->
              Window r <= getMaxWindow (manager_with [one_error])) /\
   (getMaxWindow (manager_with [one_error]) = GoTime.Minute \/
    exists r, In r (rules (manager_with [one_error])) /\
              getMaxWindow (manager_with [one_error]) = Window r)) /\
  exists am' alerts k',
    ProcessLog (frozen (100 * GoTime.Second)) seconds_String
      (manager_with [one_error]) (sample_entry Models.LevelError 55) 0%nat
      = Some ((am', alerts), k') /\
    recentLogs am' =
      List.filter
        (fun l => bool_decide
                    (frozen (100 * GoTime.Second) 0%nat
                     - getMaxWindow (manager_with [one_error]) < timestamp l))
        (recentLogs (manager_with [one_error])
         ++ [summary (sample_entry Models.LevelError 55)]).
Proof.
  apply (C4_retention_horizon (frozen (100 * GoTime.Second)) seconds_String
           (manager_with [one_error]) (sample_entry Models.LevelError 55) 0%nat).
  - reflexivity.
  - intros r [<- | []]. vm_compute. discriminate.
Defined.

(** With the single rule window of 30s the horizon is one minute, not 30s:
    at [now] = 100s an entry stamped 55s, older than [now - 30s], stays in
    the rolling window. *)
Lemma C4_counterexample :
  let now := 100 * GoTime.Second in
  let am := manager_with [one_error] in
  rules am = [one_error] /\
  Window one_error = 30 * GoTime.Second /\
  getMaxWindow am = 60 * GoTime.Second /\
  exists am' k',
    ProcessLog (frozen now) seconds_String am
      (sample_entry Models.LevelError 55) 0%nat = Some ((am', []), k') /\
    recentLogs am' = [summary (sample_entry Models.LevelError 55)] /\
    Models.Timestamp (sample_entry Models.LevelError 55)
      < now - Window one_error.
Proof.
  cbn zeta. repeat split; try reflexivity.
  eexists _, _. split; [vm_compute; reflexivity |]. by split.
Qed.

Lemma C9_witness :
  exists rule i,
    In rule (rules (manager_with [one_error])) /\
    shouldTriggerAlert_at
      {| rules := [one_error];
         alertChannel :=
           {| Chan.buf := [alert_of seconds_String one_error (100 * GoTime.Second)];
              Chan.cap := 100; Chan.closed := false; Chan.recvq := 0;
              Chan.handed := [] |};
         recentLogs := [summary (sample_entry Models.LevelError 90)] |}
      rule (frozen (100 * GoTime.Second) i) = true /\
    RuleName (alert_of seconds_String one_error (100 * GoTime.Second))
      = Name rule /\
    Count (alert_of seconds_String one_error (100 * GoTime.Second))
      = Threshold rule /\
    Message (alert_of seconds_String one_error (100 * GoTime.Second)) =
      "Alert: " +:+ Name rule +:+ " triggered! " +:+ pretty (Threshold rule)
      +:+ " " +:+ Level rule +:+ " logs in last "
      +:+ seconds_String (Window rule).
Proof.
  eapply (proj1 C9_alert_count_is_threshold (frozen (100 * GoTime.Second))
            seconds_String (manager_with [one_error])
            (sample_entry Models.LevelError 90) 0%nat).
  - vm_compute. reflexivity.
  - left. reflexivity.
Defined.

End AlertingFacts.

(** ** The dispatcher *)

Module IngestionFacts.
Import Ingestion Notions.

(** C7 (amended). On an ingestor whose queue has not been closed, [Ingest]
    returns at once.  When a worker is blocked on the queue or the buffer has
    room, the entry is handed to that worker or appended to the buffer,
    the result is [true] and the counters are unchanged.  When no worker is
    blocked and the buffer is full, the queue is unchanged, the result is
    [false] and the dropped counter is incremented by one ([uint64]
    addition: by exactly one below [2^64 - 1]). *)
Theorem C7_Ingest_open_queue (ing : Ingestor) (entry : Models.LogEntry) :
  Chan.closed (logChannel ing) = false ->
  exists ok ing',
    Ingest ing entry = Some (ok, ing') /\
    (Chan.recvq (logChannel ing) <> O \/
     Z.of_nat (length (Chan.buf (logChannel ing))) < Chan.cap (logChannel ing) ->
     ok = true /\ stats ing' = stats ing /\
     Chan.buf (logChannel ing') ++ Chan.handed (logChannel ing') ≡ₚ
       entry :: Chan.buf (logChannel ing) ++ Chan.handed (logChannel ing) /\
     (Chan.recvq (logChannel ing) = O ->
      Chan.buf (logChannel ing') = Chan.buf (logChannel ing) ++ [entry]) /\
     (Chan.recvq (logChannel ing) <> O ->
      Chan.handed (logChannel ing') = Chan.handed (logChannel ing) ++ [entry]))
    /\
    (Chan.recvq (logChannel ing) = O /\
     Chan.cap (logChannel ing) <= Z.of_nat (length (Chan.buf (logChannel ing))) ->
     ok = false /\ logChannel ing' = logChannel ing /\
     TotalProcessed (stats ing') = TotalProcessed (stats ing) /\
     TotalDropped (stats ing') =
       GoInt.add_uint64 (TotalDropped (stats ing)) 1 /\
     (0 <= TotalDropped (stats ing) < 2 ^ 64 - 1 ->
      TotalDropped (stats ing') = TotalDropped (stats ing) + 1)).
Proof.
  intros Hopen. unfold Ingest, Chan.try_send. rewrite Hopen.
  destruct (Chan.recvq (logChannel ing)) as [| waiting] eqn:Hq.
  - case_bool_decide as Hroom.
    + eexists _, _. split; [reflexivity |]. split.
      * intros _. cbn. repeat split; try done.
        rewrite <- app_assoc. cbn.
        by rewrite <- Permutation_middle.
      * intros [_ Hfull]. lia.
    + eexists _, _. split; [reflexivity |]. split.
      * intros [Hne | Hlt]; [done | lia].
      * intros _. cbn. repeat split; try done.
        intros Hsmall. by apply GoIntFacts.add_uint64_small.
  - eexists _, _. split; [reflexivity |]. split.
    + intros _. cbn. repeat split; try done.
      rewrite app_assoc. by rewrite <- Permutation_cons_append.
    + intros [Hzero _]. done.
Qed.

Lemma C7_witness :
  exists ing ok ing',
    NewIngestor empty_store None 20 2 0 = Some ing /\
    Ingest ing (sample_entry Models.LevelInfo 1) = Some (ok, ing') /\
    ok = true /\ stats ing' = stats ing.
Proof.
  eexists. 
  destruct (C7_Ingest_open_queue
              {| store := empty_store; alertManager := None;
                 logChannel := {| Chan.buf := []; Chan.cap := 2;
                                  Chan.closed := false; Chan.recvq := 0;
                                  Chan.handed := [] |};
                 workerCount := 20;
                 stats := {| TotalProcessed := 0; TotalDropped := 0;
                             StartTime := 0 |};
                 shutdown := false |}
              (sample_entry Models.LevelInfo 1))
    as (ok & ing' & Hrun & Hfree & _).
  - reflexivity.
  - exists ok, ing'. split; [reflexivity |]. split; [exact Hrun |].
    destruct Hfree as (Hok & Hstats & _).
    + right. cbn. lia.
    + by split.
Defined.

(** On a buffered queue (size at least 1) in a state the runtime can
    produce, a full buffer alone makes [Ingest] drop the entry. *)
Lemma Ingest_buffered_full (ing : Ingestor) (entry : Models.LogEntry) :
  Chan.wf (logChannel ing) -> Chan.closed (logChannel ing) = false ->
  0 < Chan.cap (logChannel ing) ->
  Chan.cap (logChannel ing) <= Z.of_nat (length (Chan.buf (logChannel ing))) ->
  exists ing',
    Ingest ing entry = Some (false, ing') /\
    logChannel ing' = logChannel ing /\
    TotalDropped (stats ing') = GoInt.add_uint64 (TotalDropped (stats ing)) 1.
Proof.
  intros Hwf Hopen Hpos Hfull.
  pose proof (ChanFacts.full_no_receiver _ Hwf Hpos Hfull) as Hq.
  unfold Ingest, Chan.try_send. rewrite Hopen, Hq.
  rewrite bool_decide_eq_false_2 by lia. eexists. by repeat split.
Qed.

(** A full queue drops the entry and counts it. *)
Lemma Ingest_full_queue :
  exists ing ing1 ing2 ing3,
    NewIngestor empty_store None 20 2 0 = Some ing /\
    Ingest ing (sample_entry Models.LevelInfo 1) = Some (true, ing1) /\
    Ingest ing1 (sample_entry Models.LevelInfo 2) = Some (true, ing2) /\
    Ingest ing2 (sample_entry Models.LevelInfo 3) = Some (false, ing3) /\
    TotalDropped (stats ing3) = 1 /\
    Chan.buf (logChannel ing3) =
      [sample_entry Models.LevelInfo 1; sample_entry Models.LevelInfo 2].
Proof.
  eexists _, _, _, _. repeat split; vm_compute; reflexivity.
Qed.

(** After [Stop] the queue is closed and [Ingest] panics: it returns neither
    success nor failure. *)
Lemma C7_counterexample :
  exists ing ing1,
    NewIngestor empty_store None 20 10000 0 = Some ing /\
    Stop ing = Some ing1 /\
    Ingest ing1 (sample_entry Models.LevelInfo 1) = None.
Proof. eexists _, _. repeat split; vm_compute; reflexivity. Qed.

(** With an unbuffered queue (size 0) the buffer is always full, yet
    [Ingest] succeeds when a worker is blocked on the queue. *)
Lemma Ingest_unbuffered_handoff :
  exists ing ch ing',
    NewIngestor empty_store None 1 0 0 = Some ing /\
    Chan.recv (logChannel ing) = (None, ch) /\
    Ingest {| store := store ing; alertManager := alertManager ing;
              logChannel := ch; workerCount := workerCount ing;
              stats := stats ing; shutdown := shutdown ing |}
      (sample_entry Models.LevelInfo 1) = Some (true, ing') /\
    Chan.handed (logChannel ing') = [sample_entry Models.LevelInfo 1].
Proof. eexists _, _, _. repeat split; vm_compute; reflexivity. Qed.

(** C8 (amended). The constructors do not validate their configuration.
    [NewIngestor] returns an ingestor for every worker count, zero and
    negative counts included, and that ingestor accepts entries;
    [NewMemoryStore(0)] returns a store, and that store accepts entries
    (and then holds one entry).  A negative store capacity and a negative
    queue size make the constructor panic in [make]. *)
Theorem C8_no_validation :
  (forall store am w now,
     exists ing,
       NewIngestor store am w 10000 now = Some ing /\ workerCount ing = w /\
       forall e, exists ing', Ingest ing e = Some (true, ing'))
  /\
  (exists ms,
     Storage.NewMemoryStore 0 = Some ms /\
     forall e, exists ms',
       Storage.Store ms e = Some ms' /\ Storage.Count ms' = 1)
  /\
  (forall cap, cap < 0 -> Storage.NewMemoryStore cap = None)
  /\
  (forall store am w b now, b < 0 -> NewIngestor store am w b now = None).
Proof.
  repeat split.
  - intros store am w now. eexists. split; [reflexivity |]. split; [done |].
    intros e. eexists. reflexivity.
  - eexists. split; [reflexivity |]. intros e. eexists. split; reflexivity.
  - intros cap Hcap. unfold Storage.NewMemoryStore.
    by rewrite bool_decide_eq_true_2 by (left; lia).
  - intros store am w b now Hb. unfold NewIngestor, Chan.make.
    by rewrite bool_decide_eq_true_2.
Qed.

Lemma C8_witness :
  Storage.NewMemoryStore (-1) = None /\
  NewIngestor empty_store None 20 (-1) 0 = None.
Proof.
  destruct C8_no_validation as (_ & _ & Hstore & Hqueue). split.
  - apply Hstore. lia.
  - apply Hqueue. lia.
Defined.

(** A zero worker count and a zero store capacity are accepted. *)
Lemma C8_counterexample :
  (exists ing,
     NewIngestor empty_store None 0 10000 0 = Some ing /\ workerCount ing = 0) /\
  (exists ms, Storage.NewMemoryStore 0 = Some ms /\ Storage.maxLogs ms = 0).
Proof. split; eexists; split; reflexivity. Qed.

End IngestionFacts.

(** ** More on the store *)

Module StorageExtras.
Import Models Storage Notions.

Lemma positions_spec {A : Type} (P : A -> bool) (l : list A) (i j : nat) :
  In j (positions P i l) <->
  (i <= j)%nat /\ exists x, l !! (j - i)%nat = Some x /\ P x = true.
Proof.
  revert i. induction l as [| y l IH]; intros i; cbn [positions].
  - split; [done |]. by intros (_ & x & Hx & _).
  - rewrite in_app_iff, IH. split.
    + intros [Hhd | (Hle & x & Hx & HP)].
      * destruct (P y) eqn:HPy; [| done]. destruct Hhd as [<- | []].
        split; [lia |]. exists y. by rewrite Nat.sub_diag.
      * split; [lia |]. exists x. split; [| done].
        replace (j - i)%nat with (S (j - S i)) by lia. done.
    + intros (Hle & x & Hx & HP).
      destruct (decide (j = i)) as [-> | Hne].
      * left. rewrite Nat.sub_diag in Hx. injection Hx as ->.
        rewrite HP. by left.
      * right. split; [lia |]. exists x. split; [| done].
        replace (j - i)%nat with (S (j - S i)) in Hx by lia. done.
Qed.

Lemma positions_sorted {A : Type} (P : A -> bool) (l : list A) (i : nat) :
  StronglySorted lt (positions P i l).
Proof.
  revert i. induction l as [| y l IH]; intros i; cbn [positions].
  - constructor.
  - destruct (P y); cbn [app]; [| apply IH].
    constructor; [apply IH |].
    apply Forall_forall. intros j Hj.
    apply list_elem_of_In, positions_spec in Hj. lia.
Qed.

Lemma index_append_nonempty `{Countable K} (m : gmap K (list nat)) k idx :
  (forall k' l, m !! k' = Some l -> l <> []) ->
  forall k' l, index_append m k idx !! k' = Some l -> l <> [].
Proof.
  intros Hm k' l. unfold index_append.
  destruct (decide (k = k')) as [-> | Hne].
  - rewrite lookup_insert_eq. intros [= <-]. by destruct (default [] (m !! k')).
  - rewrite lookup_insert_ne by done. apply Hm.
Qed.

Lemma rebuild_loop_nonempty l i byLevel byTime :
  (forall k v, byLevel !! k = Some v -> v <> []) ->
  (forall k v, byTime !! k = Some v -> v <> []) ->
  (forall k v, (rebuild_loop i l byLevel byTime).1 !! k = Some v -> v <> []) /\
  (forall k v, (rebuild_loop i l byLevel byTime).2 !! k = Some v -> v <> []).
Proof.
  revert i byLevel byTime.
  induction l as [| x l IH]; intros i byLevel byTime HL HT; cbn; [done |].
  apply IH; by apply index_append_nonempty.
Qed.

(** X1. On a reachable store [GetByLevel(level)] returns exactly the stored
    entries of that level, in arrival order; for a level no stored entry has,
    it returns the empty sequence. *)
Theorem X1_GetByLevel_exact (ms : MemoryStore) (lvl : string) :
  reachable ms ->
  GetByLevel ms lvl =
    List.filter (fun e => bool_decide (Level e = lvl)) (logs ms) /\
  ((forall e, In e (logs ms) -> Level e <> lvl) -> GetByLevel ms lvl = []).
Proof.
  intros Hr. pose proof (StorageFacts.GetByLevel_exact ms lvl Hr) as Heq.
  split; [done |]. rewrite Heq. clear Heq Hr.
  induction (logs ms) as [| e l IH]; intros Hnone; [done |]. cbn.
  rewrite bool_decide_eq_false_2 by (apply Hnone; by left).
  apply IH. intros e' He'. apply Hnone. by right.
Qed.

(** X2. On a reachable store each index is exact: a position is listed under
    a level (under a time bucket) exactly when the entry at that position of
    the sequence has that level (falls in that bucket), so every listed
    position is within bounds; the positions under a key are in strictly
    ascending order; and no key is mapped to an empty list. *)
Theorem X2_indices_exact (ms : MemoryStore) :
  reachable ms ->
  (forall lvl i,
     In i (default [] (indexByLevel ms !! lvl)) <->
     exists e, logs ms !! i = Some e /\ Level e = lvl) /\
  (forall bucket i,
     In i (default [] (buckets (indexByTime ms) !! bucket)) <->
     exists e, logs ms !! i = Some e /\ timeBucket (Timestamp e) = bucket) /\
  (forall lvl, StronglySorted lt (default [] (indexByLevel ms !! lvl))) /\
  (forall bucket,
     StronglySorted lt (default [] (buckets (indexByTime ms) !! bucket))) /\
  (forall lvl, indexByLevel ms !! lvl <> Some []) /\
  (forall bucket, buckets (indexByTime ms) !! bucket <> Some []).
Proof.
  intros Hr. pose proof (StorageFacts.reachable_consistent ms Hr) as Hc.
  unfold consistent in Hc.
  assert (HL : forall lvl, default [] (indexByLevel ms !! lvl) =
            positions (fun e => bool_decide (Level e = lvl)) 0 (logs ms)).
  { intros lvl.
    pose proof (StorageFacts.rebuild_loop_levels (logs ms) 0 ∅ ∅ lvl) as H.
    rewrite <- Hc in H. cbn [fst] in H. by rewrite lookup_empty in H. }
  assert (HT : forall b, default [] (buckets (indexByTime ms) !! b) =
            positions (fun e => bool_decide (timeBucket (Timestamp e) = b))
              0 (logs ms)).
  { intros b.
    pose proof (StorageFacts.rebuild_loop_buckets (logs ms) 0 ∅ ∅ b) as H.
    rewrite <- Hc in H. cbn [snd] in H. by rewrite lookup_empty in H. }
  destruct (rebuild_loop_nonempty (logs ms) 0 ∅ ∅) as [HnL HnT];
    [intros k v; by rewrite lookup_empty ..|].
  rewrite <- Hc in HnL, HnT. cbn [fst snd] in HnL, HnT.
  repeat split.
  - rewrite HL, positions_spec, Nat.sub_0_r.
    intros (_ & e & He & HP). apply bool_decide_eq_true in HP. eauto.
  - rewrite HL, positions_spec, Nat.sub_0_r.
    intros (e & He & HP). split; [lia |]. exists e.
    by rewrite bool_decide_eq_true.
  - rewrite HT, positions_spec, Nat.sub_0_r.
    intros (_ & e & He & HP). apply bool_decide_eq_true in HP. eauto.
  - rewrite HT, positions_spec, Nat.sub_0_r.
    intros (e & He & HP). split; [lia |]. exists e.
    by rewrite bool_decide_eq_true.
  - intros lvl. rewrite HL. apply positions_sorted.
  - intros b. rewrite HT. apply positions_sorted.
  - intros lvl Hl. by apply (HnL lvl []).
  - intros b Hb. by apply (HnT b []).
Qed.

(** The effect of [Store] on a reachable store. *)
Lemma Store_effect (ms : MemoryStore) (e : LogEntry) :
  reachable ms ->
  exists ms',
    Store ms e = Some ms' /\
    maxLogs ms' = maxLogs ms /\
    (Count ms < maxLogs ms ->
     logs ms' = logs ms ++ [e] /\ Count ms' = Count ms + 1) /\
    (maxLogs ms <= Count ms ->
     logs ms' = drop (Z.to_nat (maxLogs ms `quot` 5)) (logs ms ++ [e]) /\
     Count ms' = Count ms + 1 - maxLogs ms `quot` 5) /\
    last (logs ms') = Some e.
Proof.
  intros Hr. pose proof (StorageFacts.reachable_capacity_nonneg ms Hr) as Hcap.
  destruct (StorageFacts.Store_total ms e Hr) as [ms' Hst].
  destruct (StorageFacts.Store_cases ms e ms' Hcap Hst)
    as [Hmax [[Hin Hlogs] | [Hout Hlogs]]]; unfold Count in *.
  - exists ms'. split; [done |]. split; [done |]. split; [| split].
    + intros _. rewrite Hlogs, length_app. cbn. split; [done | lia].
    + intros Hfull. lia.
    + rewrite Hlogs. apply last_snoc.
  - assert (Hq : 0 <= maxLogs ms `quot` 5 <= maxLogs ms)
      by (Z.quot_rem_to_equations; lia).
    exists ms'. split; [done |]. split; [done |]. split; [| split].
    + intros Hroom. lia.
    + intros _. rewrite Hlogs, length_drop, length_app. cbn. split; [done | lia].
    + rewrite Hlogs, drop_app_le by lia. apply last_snoc.
Qed.

(** X3. [Store] returns on every reachable store and keeps the capacity.
    When the store holds fewer entries than its capacity the entry is
    appended; otherwise the entry is appended and the oldest [maxLogs / 5]
    entries are dropped.  In both cases the stored entry is the last of the
    sequence afterwards, and both indices are again what [rebuildIndices]
    computes from the sequence. *)
Theorem X3_Store_effect (ms : MemoryStore) (e : LogEntry) :
  reachable ms ->
  exists ms',
    Store ms e = Some ms' /\
    maxLogs ms' = maxLogs ms /\
    (Count ms < maxLogs ms ->
     logs ms' = logs ms ++ [e] /\ Count ms' = Count ms + 1) /\
    (maxLogs ms <= Count ms ->
     logs ms' = drop (Z.to_nat (maxLogs ms `quot` 5)) (logs ms ++ [e]) /\
     Count ms' = Count ms + 1 - maxLogs ms `quot` 5) /\
    last (logs ms') = Some e /\
    1 <= Count ms' /\
    consistent ms'.
Proof.
  intros Hr.
  destruct (Store_effect ms e Hr) as (ms' & Hst & Hmax & Hroom & Hfull & Hlast).
  exists ms'. split; [done |]. split; [done |]. split; [done |].
  split; [done |]. split; [done |]. split.
  - unfold Count. destruct (logs ms') as [| x l]; [done |]. cbn [length]. lia.
  - apply StorageFacts.reachable_consistent. by eapply reachable_store.
Qed.

(** X5. What was just stored can be read back: after [Store(entry)] on a
    reachable store, [entry] is returned by [GetByLevel] for its level and by
    [GetByTimeRange] for every range that contains its timestamp, and (the
    length being an [int]) [GetRecent(1)] returns exactly that entry. *)
Theorem X5_store_then_read (ms ms' : MemoryStore) (e : LogEntry) :
  reachable ms -> Store ms e = Some ms' -> Count ms' <= GoInt.int_max ->
  In e (GetByLevel ms' (Level e)) /\
  (forall start end_,
     start <= Timestamp e <= end_ -> In e (GetByTimeRange ms' start end_)) /\
  GetRecent ms' 1 = Some [e].
Proof.
  intros Hr Hst Hint.
  assert (Hr' : reachable ms') by by eapply reachable_store.
  destruct (Store_effect ms e Hr) as (ms1 & Hst1 & _ & _ & _ & Hlast).
  rewrite Hst in Hst1. injection Hst1 as <-.
  assert (Hin : In e (logs ms')).
  { apply last_Some in Hlast as [l' ->]. apply in_app_iff. right. by left. }
  split; [| split].
  - rewrite StorageFacts.GetByLevel_exact by done.
    apply filter_In. split; [done |]. by apply bool_decide_eq_true.
  - intros start end_ Hrange.
    by apply StorageFacts.GetByTimeRange_in.
  - unfold Count, GoInt.int_max in Hint.
    apply last_Some in Hlast as [l' Hl']. unfold GetRecent, GoInt.sub_int.
    rewrite Hl' in *. rewrite length_app in *. cbn [length] in *.
    rewrite GoIntFacts.wrap_int_id
      by (unfold GoInt.in_int, GoInt.int_min, GoInt.int_max; lia).
    rewrite bool_decide_eq_false_2 by lia.
    rewrite SliceFacts.slice_from_ok by (rewrite length_app; cbn; lia).
    f_equal. rewrite drop_app_length'; [done | lia].
Qed.

(** X6. Whatever the indices hold, the reads return stored entries only: a
    position that is out of bounds is skipped.  Every entry returned by
    [GetByTimeRange(start, end)] is stored and has [start <= t <= end], so the
    result is empty when [end] is before [start]; every entry returned by
    [GetByLevel] is stored. *)
Theorem X6_reads_are_sound (ms : MemoryStore) :
  (forall start end_ e,
     In e (GetByTimeRange ms start end_) ->
     In e (logs ms) /\ start <= Timestamp e <= end_) /\
  (forall start end_, end_ < start -> GetByTimeRange ms start end_ = []) /\
  (forall lvl e, In e (GetByLevel ms lvl) -> In e (logs ms)).
Proof.
  assert (Hsound : forall start end_ e,
     In e (GetByTimeRange ms start end_) ->
     In e (logs ms) /\ start <= Timestamp e <= end_).
  { intros start end_ e. unfold GetByTimeRange. rewrite in_flat_map.
    intros (bucket & _ & Hin).
    destruct (buckets (indexByTime ms) !! bucket) as [indices |]; [| done].
    apply in_flat_map in Hin as (idx & _ & Hin).
    destruct (logs ms !! idx) as [log |] eqn:Hlog; [| done].
    destruct (negb _ && negb _) eqn:Hw; [| done].
    destruct Hin as [<- | []]. split.
    - apply list_elem_of_In. by eapply list_elem_of_lookup_2.
    - by apply GoTimeFacts.within_spec. }
  split; [done |]. split.
  - intros start end_ Hinv.
    destruct (GetByTimeRange ms start end_) as [| e l] eqn:Hres; [done |].
    destruct (Hsound start end_ e) as [_ Hr]; [rewrite Hres; by left | lia].
  - intros lvl e. unfold GetByLevel. intros Hin.
    apply list_elem_of_In, list_elem_of_omap in Hin as (idx & _ & Hidx).
    apply list_elem_of_In. by eapply list_elem_of_lookup_2.
Qed.

(** Whatever was stored, the sequence of a store is a suffix of what it held
    followed by the entries stored since. *)
Lemma store_all_suffix ms entries :
  reachable ms ->
  exists ms' k,
    store_all ms entries = Some ms' /\ reachable ms' /\
    maxLogs ms' = maxLogs ms /\
    logs ms' = drop k (logs ms ++ entries).
Proof.
  revert ms. induction entries as [| e rest IH]; intros ms Hr; cbn [store_all].
  - exists ms, O. rewrite app_nil_r. by repeat split.
  - destruct (Store_effect ms e Hr) as (ms1 & Hst & Hmax & Hroom & Hfull & _).
    rewrite Hst.
    assert (Hr1 : reachable ms1) by by eapply reachable_store.
    destruct (IH ms1 Hr1) as (ms' & k & Hall & Hr' & Hmax' & Hlogs).
    pose proof (StorageFacts.reachable_capacity_nonneg ms Hr) as Hcap.
    assert (exists k1, (k1 <= length (logs ms))%nat /\
                       logs ms1 = drop k1 (logs ms ++ [e])) as (k1 & Hk1 & Hl1).
    { destruct (decide (Count ms < maxLogs ms)) as [Hlt | Hge].
      - exists O. split; [lia |]. by destruct (Hroom Hlt).
      - exists (Z.to_nat (maxLogs ms `quot` 5)). unfold Count in *.
        split; [Z.quot_rem_to_equations; lia |].
        by destruct (Hfull ltac:(lia)). }
    exists ms', (k1 + k)%nat. split; [done |]. split; [done |].
    split; [congruence |].
    rewrite Hlogs, Hl1, <- drop_drop.
    f_equal. rewrite (drop_app_le _ [e]) by done.
    rewrite drop_app_le by done. by rewrite <- app_assoc.
Qed.

(** X19. A store always holds the most recent entries: on a store that
    [NewMemoryStore] returned, whatever its capacity and however many entries
    are stored, all [Store] calls return, and the sequence afterwards is made
    of the last [Count()] entries stored, in arrival order; it is not empty
    once an entry was stored. *)
Theorem X19_store_holds_most_recent (cap : Z) (ms0 : MemoryStore)
    (entries : list LogEntry) :
  NewMemoryStore cap = Some ms0 ->
  exists ms,
    store_all ms0 entries = Some ms /\
    logs ms = most_recent (Z.to_nat (Count ms)) entries /\
    (entries <> [] -> logs ms <> []).
Proof.
  intros Hnew.
  assert (Hl0 : logs ms0 = []).
  { by destruct (StorageFacts.NewMemoryStore_inv cap ms0 Hnew) as (-> & _). }
  destruct (store_all_suffix ms0 entries) as (ms & k & Hall & Hr & _ & Hlogs);
    [by eapply reachable_new |].
  rewrite Hl0 in Hlogs. cbn [app] in Hlogs.
  exists ms. split; [done |]. split.
  - unfold most_recent, Count. rewrite Hlogs at 2. rewrite Hlogs at 1.
    rewrite length_drop, Nat2Z.id.
    destruct (decide (k <= length entries)%nat).
    + f_equal. lia.
    + rewrite drop_ge by lia. replace (length entries - k)%nat with O by lia.
      cbn. by rewrite Nat.sub_0_r, drop_all.
  - intros Hne. destruct (exists_last Hne) as (init & e & ->).
    rewrite StorageFacts.store_all_app in Hall.
    destruct (store_all ms0 init) as [ms1 |] eqn:Hinit; [| done].
    cbn in Hall. destruct (Store ms1 e) as [ms2 |] eqn:Hst; [| done].
    injection Hall as <-.
    assert (Hr1 : reachable ms1).
    { eapply StorageFacts.store_all_reachable; [| exact Hinit].
      by eapply reachable_new. }
    destruct (Store_effect ms1 e Hr1) as (ms3 & Hst3 & _ & _ & _ & Hlast).
    rewrite Hst in Hst3. injection Hst3 as <-.
    intros Hnil. by rewrite Hnil in Hlast.
Qed.

(** X4. Retention: for a capacity of at least 5, after [n] entries were
    stored into a new store, [Count()] lies between the smaller of [n] and
    [capacity + 1 - capacity / 5] and the capacity; an eviction leaves exactly
    [capacity + 1 - capacity / 5] entries. *)
Theorem X4_retention_bounds (cap : Z) (entries : list LogEntry) (ms : MemoryStore) :
  5 <= cap -> store_of cap entries = Some ms ->
  Z.min (Z.of_nat (length entries)) (cap + 1 - cap `quot` 5) <= Count ms <= cap.
Proof.
  intros Hcap. unfold store_of.
  destruct (NewMemoryStore cap) as [ms0 |] eqn:Hnew; [| done].
  assert (logs ms0 = [] /\ maxLogs ms0 = cap) as [Hl0 Hm0].
  { by destruct (StorageFacts.NewMemoryStore_inv cap ms0 Hnew) as (-> & _). }
  cbn. revert ms.
  induction entries as [| e init IH] using rev_ind; intros ms Hall.
  - injection Hall as <-. unfold Count. rewrite Hl0. cbn. lia.
  - rewrite StorageFacts.store_all_app in Hall.
    destruct (store_all ms0 init) as [ms1 |] eqn:Hinit; [| done].
    cbn in Hall. destruct (Store ms1 e) as [ms2 |] eqn:Hst; [| done].
    injection Hall as <-. specialize (IH ms1 eq_refl).
    assert (Hr1 : reachable ms1).
    { eapply StorageFacts.store_all_reachable; [| exact Hinit].
      by eapply reachable_new. }
    assert (Hmax : maxLogs ms1 = cap).
    { destruct (store_all_suffix ms0 init) as (ms' & k & Hall' & _ & Hmax' & _);
        [by eapply reachable_new |].
      rewrite Hinit in Hall'. injection Hall' as <-. congruence. }
    destruct (Store_effect ms1 e Hr1) as (ms3 & Hst3 & _ & Hroom & Hfull & _).
    rewrite Hst in Hst3. injection Hst3 as <-.
    rewrite length_app. cbn [length]. rewrite Hmax in *.
    assert (Hq : 1 <= cap `quot` 5 <= cap) by (Z.quot_rem_to_equations; lia).
    destruct (decide (Count ms1 < cap)) as [Hlt | Hge].
    + destruct (Hroom Hlt) as [_ ->]. lia.
    + destruct (Hfull ltac:(lia)) as [_ ->]. lia.
Qed.

(** *** Instances *)


Lemma X1_witness :
  GetByLevel sample_store LevelError =
    List.filter (fun e => bool_decide (Level e = LevelError)) (logs sample_store) /\
  ((forall e, In e (logs sample_store) -> Level e <> LevelError) ->
   GetByLevel sample_store LevelError = []).
Proof.
  apply (X1_GetByLevel_exact sample_store LevelError).
  apply (StorageFacts.store_of_reachable 10 (minute_entries 4)).
  vm_compute. reflexivity.
Defined.

Lemma X2_witness :
  (In 1%nat (default [] (indexByLevel sample_store !! LevelError)) <->
   exists e, logs sample_store !! 1%nat = Some e /\ Level e = LevelError) /\
  StronglySorted lt (default [] (indexByLevel sample_store !! LevelError)) /\
  indexByLevel sample_store !! LevelInfo <> Some [].
Proof.
  destruct (X2_indices_exact sample_store)
    as (Hlevels & _ & Hsorted & _ & Hnonempty & _).
  - apply (StorageFacts.store_of_reachable 10 (minute_entries 4)).
    vm_compute. reflexivity.
  - split; [apply Hlevels |]. split; [apply Hsorted | apply Hnonempty].
Defined.

Lemma X3_witness :
  exists ms',
    Store sample_store (sample_entry LevelInfo 200) = Some ms' /\
    last (logs ms') = Some (sample_entry LevelInfo 200).
Proof.
  destruct (X3_Store_effect sample_store (sample_entry LevelInfo 200))
    as (ms' & Hst & _ & _ & _ & Hlast & _).
  - apply (StorageFacts.store_of_reachable 10 (minute_entries 4)).
    vm_compute. reflexivity.
  - by exists ms'.
Defined.

Lemma X5_witness :
  In (sample_entry LevelInfo 200)
    (GetByLevel sample_store_after LevelInfo) /\
  (forall start end_,
     start <= Timestamp (sample_entry LevelInfo 200) <= end_ ->
     In (sample_entry LevelInfo 200)
       (GetByTimeRange sample_store_after start end_)) /\
  GetRecent sample_store_after 1 = Some [sample_entry LevelInfo 200].
Proof.
  apply (X5_store_then_read sample_store sample_store_after
           (sample_entry LevelInfo 200)).
  - apply (StorageFacts.store_of_reachable 10 (minute_entries 4)).
    vm_compute. reflexivity.
  - vm_compute. reflexivity.
  - vm_compute. discriminate.
Defined.

Lemma X19_witness :
  exists ms,
    store_all (new_store 4) (sample_entries 7) = Some ms /\
    logs ms = most_recent (Z.to_nat (Count ms)) (sample_entries 7) /\
    (sample_entries 7 <> [] -> logs ms <> []).
Proof.
  apply (X19_store_holds_most_recent 4 (new_store 4) (sample_entries 7)).
  vm_compute. reflexivity.
Defined.

Lemma X4_witness :
  Z.min (Z.of_nat (length (minute_entries 4))) (10 + 1 - 10 `quot` 5)
    <= Count sample_store <= 10.
Proof.
  apply (X4_retention_bounds 10 (minute_entries 4) sample_store).
  - lia.
  - vm_compute. reflexivity.
Defined.

End StorageExtras.

(** ** More on the alert evaluator *)

Module AlertingExtras.
Import Alerting Notions.

(** X7. The pattern test is substring search: [contains(s, substr)] and
    [containsPattern(message, pattern)] are true exactly when the pattern
    occurs in the message as a contiguous substring; the empty pattern occurs
    in every message, and a pattern longer than the message in none. *)
Theorem X7_containsPattern_is_substring (message pattern : string) :
  (containsPattern message pattern = true <-> is_substring pattern message) /\
  (contains message pattern = true <-> is_substring pattern message) /\
  containsPattern message EmptyString = true /\
  ((String.length message < String.length pattern)%nat ->
   containsPattern message pattern = false /\ contains message pattern = false).
Proof.
  split; [apply AlertingFacts.containsPattern_spec |].
  split; [apply AlertingFacts.contains_spec |].
  split; [done |].
  intros Hlen.
  assert (Hno : ~ is_substring pattern message).
  { intros (pre & post & ->). rewrite !AlertingFacts.length_append in Hlen. lia. }
  split; apply not_true_is_false; intros H; apply Hno.
  - by apply AlertingFacts.containsPattern_spec.
  - by apply AlertingFacts.contains_spec.
Qed.

Lemma filter_filter_implied {A : Type} (P Q : A -> bool) (l : list A) :
  (forall x, P x = true -> Q x = true) ->
  List.filter P (List.filter Q l) = List.filter P l.
Proof.
  intros HPQ. induction l as [| x l IH]; [done |]. cbn.
  destruct (Q x) eqn:HQ; cbn.
  - by rewrite IH.
  - destruct (P x) eqn:HP; [| done]. apply HPQ in HP. congruence.
Qed.

(** X8. Pruning never changes a decision: for a configured rule, evaluated at
    a clock reading [now'] that is not before the reading [now] used for the
    cutoff, [shouldTriggerAlert] gives the same answer on the window pruned by
    [cleanOldLogs] at [now - getMaxWindow()] as on the unpruned window (rule
    windows being [int64] values, the rule's own not the least one). *)
Theorem X8_pruning_keeps_decisions (am : AlertManager) (rule : AlertRule)
    (now now' : GoTime.Time) :
  (forall r, In r (rules am) -> Window r <= GoInt.int_max) ->
  In rule (rules am) -> GoInt.int_min < Window rule ->
  now <= now' ->
  shouldTriggerAlert_at
    {| rules := rules am; alertChannel := alertChannel am;
       recentLogs :=
         cleanOldLogs (recentLogs am)
           (GoTime.Add now (GoInt.neg_int (getMaxWindow am))) |}
    rule now' =
  shouldTriggerAlert_at am rule now'.
Proof.
  intros Hw Hrule Hmin Hclock.
  rewrite !AlertingFacts.shouldTriggerAlert_at_spec by (split; [done | by apply Hw]).
  cbn [recentLogs]. rewrite AlertingFacts.getMaxWindow_negated by done.
  unfold matching_count, cleanOldLogs. rewrite filter_filter_implied; [done |].
  intros log Hc. unfold countedb in Hc.
  rewrite !andb_true_iff, bool_decide_eq_true in Hc. destruct Hc as [[Hts _] _].
  unfold GoTime.After, GoTime.Add. apply bool_decide_eq_true.
  destruct (AlertingFacts.getMaxWindow_bounds am) as (_ & Hall & _).
  specialize (Hall rule Hrule). lia.
Qed.

Lemma count_loop_nonneg rule windowStart logs count :
  count <= fold_left (count_step rule windowStart) logs count.
Proof.
  revert count. induction logs as [| log logs IH]; intros count; cbn; [lia |].
  etrans; [| apply IH]. unfold count_step.
  repeat (case_match; try lia).
Qed.

Lemma nonpositive_threshold_fires am rule now :
  Threshold rule <= 0 -> shouldTriggerAlert_at am rule now = true.
Proof.
  intros Hth. unfold shouldTriggerAlert_at. apply bool_decide_eq_true.
  pose proof (count_loop_nonneg rule
                (GoTime.Add now (GoInt.neg_int (Window rule))) (recentLogs am) 0).
  lia.
Qed.

(** A rule that [shouldTriggerAlert] accepts at every reading gets an alert
    from the loop when the channel is open. *)
Lemma check_rules_complete clock DS am rs ch k rule :
  Chan.closed ch = false -> In rule rs ->
  (forall now, shouldTriggerAlert_at am rule now = true) ->
  exists ch' tr k' i sent,
    check_rules clock DS am rs ch k = Some ((ch', tr), k') /\
    In (alert_of DS rule (clock (S i)), sent) tr.
Proof.
  revert ch k. induction rs as [| r rs IH]; intros ch k Hopen Hin Hfire; [done |].
  rewrite AlertingFacts.check_rules_cons.
  destruct Hin as [-> | Hin].
  - rewrite Hfire.
    destruct (ChanFacts.try_send_open ch (alert_of DS rule (clock (S k))) Hopen)
      as (sent & ch1 & -> & Hopen1).
    destruct (AlertingFacts.check_rules_total clock DS am rs ch1 (S (S k)) Hopen1)
      as (ch' & tr & k' & -> & _).
    eexists _, _, _, k, sent. split; [done |]. by left.
  - destruct (shouldTriggerAlert_at am r (clock k)).
    + destruct (ChanFacts.try_send_open ch (alert_of DS r (clock (S k))) Hopen)
        as (sent & ch1 & -> & Hopen1).
      destruct (IH ch1 (S (S k)) Hopen1 Hin Hfire)
        as (ch' & tr & k' & i & sent' & -> & Htr).
      eexists _, _, _, i, sent'. split; [done |]. by right.
    + by apply IH.
Qed.

(** X9. A rule whose threshold is zero or negative fires on every call: with
    the alert channel open, [ProcessLog] constructs an alert for it whatever
    the log and the window are (the count is never negative). *)
Theorem X9_nonpositive_threshold_always_fires (clock : nat -> GoTime.Time)
    (DS : GoTime.Duration -> string) (am : AlertManager)
    (log : Models.LogEntry) (k : nat) (rule : AlertRule) :
  Chan.closed (alertChannel am) = false ->
  In rule (rules am) -> Threshold rule <= 0 ->
  exists am' alerts k' a sent,
    ProcessLog clock DS am log k = Some ((am', alerts), k') /\
    In (a, sent) alerts /\
    RuleName a = Name rule /\ Count a = Threshold rule.
Proof.
  intros Hopen Hin Hth. rewrite AlertingFacts.ProcessLog_unfold. cbn zeta.
  set (am2 := {| rules := rules am; alertChannel := alertChannel am;
                 recentLogs := _ |}).
  destruct (check_rules_complete clock DS am2 (rules am) (alertChannel am) (S k)
              rule Hopen Hin) as (ch' & tr & k' & i & sent & -> & Htr).
  { intros now. by apply nonpositive_threshold_fires. }
  eexists _, tr, _, _, sent. split; [reflexivity |]. split; [exact Htr |]. done.
Qed.

Lemma getMaxWindow_AddRule am rule :
  getMaxWindow (AddRule am rule) = Z.max (getMaxWindow am) (Window rule).
Proof.
  unfold getMaxWindow. cbn [rules AddRule].
  rewrite fold_left_app. cbn [fold_left]. case_bool_decide; lia.
Qed.

(** X10. A sequence of [AddRule] calls appends the rules in order (a rule
    added twice is kept twice) and touches neither the rolling window nor the
    alert channel.  The retention horizon never shrinks: afterwards it is at
    least the horizon before and at least every added window, and it is the
    horizon before or one of the added windows. *)
Theorem X10_AddRule_effect (am : AlertManager) (added : list AlertRule) :
  let am' := fold_left AddRule added am in
  rules am' = rules am ++ added /\
  recentLogs am' = recentLogs am /\
  alertChannel am' = alertChannel am /\
  getMaxWindow am <= getMaxWindow am' /\
  (forall r, In r added -> Window r <= getMaxWindow am') /\
  (getMaxWindow am' = getMaxWindow am \/
   exists r, In r added /\ getMaxWindow am' = Window r).
Proof.
  cbn zeta. revert am. induction added as [| rule added IH]; intros am.
  - cbn. rewrite app_nil_r. repeat split; try done; try lia; by left.
  - cbn [fold_left]. destruct (IH (AddRule am rule))
      as (Hrules & Hlogs & Hch & Hle & Hall & Hex).
    rewrite getMaxWindow_AddRule in Hle, Hex.
    rewrite Hrules, Hlogs, Hch. cbn [rules recentLogs alertChannel AddRule].
    rewrite <- app_assoc.
    split; [done |]. split; [done |]. split; [done |].
    split; [lia |]. split.
    + intros r [<- | Hr]; [lia | by apply Hall].
    + destruct Hex as [Heq | (r & Hr & Heq)].
      * rewrite Heq.
        destruct (Z.max_spec (getMaxWindow am) (Window rule))
          as [[_ Hm] | [_ Hm]]; rewrite Hm; [| by left].
        right. exists rule. split; [by left | done].
      * right. exists r. split; [by right | done].
Qed.

(** The loop of [ProcessLog] on a channel nobody receives from: the alerts
    it constructs fill the free slots of the buffer in order, and the others
    are skipped. *)
Lemma check_rules_queue clock DS am rs ch k ch' tr k' :
  Chan.recvq ch = O ->
  check_rules clock DS am rs ch k = Some ((ch', tr), k') ->
  let free := Z.to_nat (Chan.cap ch - Z.of_nat (length (Chan.buf ch))) in
  Chan.buf ch' = Chan.buf ch ++ take free (map fst tr) /\
  map fst (List.filter snd tr) = take free (map fst tr) /\
  Chan.recvq ch' = O /\ Chan.cap ch' = Chan.cap ch /\
  Chan.handed ch' = Chan.handed ch /\ Chan.closed ch' = Chan.closed ch.
Proof.
  revert ch k ch' tr k'.
  induction rs as [| rule rs IH]; intros ch k ch' tr k' Hq Hrun; cbn zeta.
  - injection Hrun as <- <- <-. cbn. rewrite take_nil, app_nil_r. done.
  - rewrite AlertingFacts.check_rules_cons in Hrun.
    destruct (shouldTriggerAlert_at am rule (clock k)); [| by apply (IH _ _ _ _ _ Hq Hrun)].
    unfold Chan.try_send in Hrun. rewrite Hq in Hrun.
    destruct (Chan.closed ch) eqn:Hcl; [done |].
    case_bool_decide as Hroom.
    + destruct (check_rules _ _ _ _ _ _) as [[[ch2 tr2] k2] |] eqn:Hrest; [| done].
      injection Hrun as <- <- <-.
      apply IH in Hrest; [| done]. cbn zeta in Hrest. cbn [Chan.buf Chan.cap Chan.recvq Chan.handed Chan.closed] in Hrest.
      destruct Hrest as (Hbuf & Hsent & Hq2 & Hcap & Hh & Hc).
      rewrite length_app in Hbuf, Hsent. cbn [length] in Hbuf, Hsent.
      replace (Z.to_nat (Chan.cap ch - Z.of_nat (length (Chan.buf ch))))
        with (S (Z.to_nat (Chan.cap ch
                            - Z.of_nat (length (Chan.buf ch) + 1)))) by lia.
      cbn [map fst snd List.filter take]. rewrite Hbuf, <- app_assoc. cbn [app].
      repeat split; try done. by rewrite Hsent.
    + destruct (check_rules _ _ _ _ _ _) as [[[ch2 tr2] k2] |] eqn:Hrest; [| done].
      injection Hrun as <- <- <-.
      apply IH in Hrest; [| done]. cbn zeta in Hrest.
      destruct Hrest as (Hbuf & Hsent & Hq2 & Hcap & Hh & Hc).
      replace (Z.to_nat (Chan.cap ch - Z.of_nat (length (Chan.buf ch))))
        with O in * by lia.
      cbn [map fst snd List.filter]. rewrite take_0 in *.
      repeat split; done || congruence.
Qed.

(** X11. Alerts are queued until the channel is full, then dropped: when no
    consumer is blocked on the alert channel and none receives during the
    call, the alerts constructed by [ProcessLog] are appended to the buffer in
    order as far as there are free slots, the others are skipped, and the
    call returns all the same.  [processAlerts] then starts the callback on
    the buffered alerts, oldest first, so an alert skipped here never reaches
    the callback. *)
Theorem X11_alerts_dropped_when_full (clock : nat -> GoTime.Time)
    (DS : GoTime.Duration -> string) (am : AlertManager)
    (log : Models.LogEntry) (k : nat) am' alerts k' :
  Chan.recvq (alertChannel am) = O ->
  ProcessLog clock DS am log k = Some ((am', alerts), k') ->
  let ch := alertChannel am in
  let free := Z.to_nat (Chan.cap ch - Z.of_nat (length (Chan.buf ch))) in
  Chan.buf (alertChannel am') = Chan.buf ch ++ take free (map fst alerts) /\
  map fst (List.filter snd alerts) = take free (map fst alerts) /\
  Chan.cap (alertChannel am') = Chan.cap ch /\
  (processAlerts true am').1.1 = Chan.buf ch ++ take free (map fst alerts).
Proof.
  intros Hq Hrun. rewrite AlertingFacts.ProcessLog_unfold in Hrun.
  cbn zeta in Hrun.
  destruct (check_rules _ _ _ _ _ _) as [[[ch' tr] k''] |] eqn:Hloop; [| done].
  injection Hrun as <- <- <-.
  destruct (check_rules_queue _ _ _ _ _ _ _ _ _ Hq Hloop)
    as (Hbuf & Hsent & _ & Hcap & _).
  cbn [alertChannel fst snd processAlerts]. by repeat split.
Qed.

(** On a closed channel the loop panics at the first rule that fires. *)
Lemma check_rules_closed clock DS am rs ch k :
  Chan.closed ch = true ->
  (check_rules clock DS am rs ch k = None <->
   exists j rule,
     rs !! j = Some rule /\
     shouldTriggerAlert_at am rule (clock (k + j)%nat) = true) /\
  (forall r, check_rules clock DS am rs ch k = Some r ->
             r = ((ch, []), (k + length rs)%nat)).
Proof.
  intros Hcl. revert k. induction rs as [| rule rs IH]; intros k.
  - cbn. split.
    + split; [done |]. by intros (j & r & Hj & _).
    + intros r [= <-]. by rewrite Nat.add_0_r.
  - rewrite AlertingFacts.check_rules_cons.
    destruct (shouldTriggerAlert_at am rule (clock k)) eqn:Hfire.
    + unfold Chan.try_send. rewrite Hcl. split; [| done].
      split; [| done]. intros _. exists O, rule. by rewrite Nat.add_0_r.
    + destruct (IH (S k)) as [Hnone Hsome]. split.
      * rewrite Hnone. split.
        -- intros (j & r & Hj & Hf). exists (S j), r. split; [done |].
           by replace (k + S j)%nat with (S k + j)%nat by lia.
        -- intros (j & r & Hj & Hf). destruct j as [| j].
           ++ cbn in Hj. injection Hj as <-. rewrite Nat.add_0_r in Hf. congruence.
           ++ exists j, r. split; [done |].
              by replace (S k + j)%nat with (k + S j)%nat by lia.
      * intros r Hr. rewrite (Hsome r Hr). cbn [length]. f_equal. lia.
Qed.

(** X12. After [Stop] the alert channel is closed: a second [Stop] panics,
    and [ProcessLog] panics exactly when one of the rules fires (rule number
    [j] being decided at the reading that follows the first by [j + 1]);
    when it returns it has constructed no alert and left the channel as it
    was. *)
Theorem X12_ProcessLog_after_Stop (clock : nat -> GoTime.Time)
    (DS : GoTime.Duration -> string) (am am1 : AlertManager)
    (log : Models.LogEntry) (k : nat) :
  Stop am = Some am1 ->
  Stop am1 = None /\
  rules am1 = rules am /\ recentLogs am1 = recentLogs am /\
  let pruned :=
    {| rules := rules am1; alertChannel := alertChannel am1;
       recentLogs :=
         cleanOldLogs (recentLogs am1 ++ [summary log])
           (GoTime.Add (clock k) (GoInt.neg_int (getMaxWindow am1))) |} in
  (ProcessLog clock DS am1 log k = None <->
   exists j rule,
     rules am1 !! j = Some rule /\
     shouldTriggerAlert_at pruned rule (clock (S k + j)%nat) = true) /\
  (forall am2 alerts k',
     ProcessLog clock DS am1 log k = Some ((am2, alerts), k') ->
     alerts = [] /\ alertChannel am2 = alertChannel am1 /\
     recentLogs am2 = recentLogs pruned).
Proof.
  unfold Stop, Chan.close. intros Hstop.
  destruct (Chan.closed (alertChannel am)) eqn:Hopen; [done |].
  injection Hstop as <-. cbn [rules recentLogs alertChannel Chan.closed].
  split; [done |]. split; [done |]. split; [done |]. cbn zeta.
  set (ch1 := {| Chan.buf := _; Chan.closed := true |}).
  set (am1 := {| rules := rules am; alertChannel := ch1 |}).
  set (pruned := {| rules := rules am; alertChannel := ch1;
                    recentLogs := cleanOldLogs _ _ |}).
  destruct (check_rules_closed clock DS pruned (rules am) ch1 (S k) eq_refl)
    as [Hnone Hsome].
  rewrite (AlertingFacts.ProcessLog_unfold clock DS am1 log k). cbn zeta.
  change (getMaxWindow am1) with (getMaxWindow am) in *.
  cbn [rules alertChannel recentLogs am1].
  fold pruned. split.
  - rewrite <- Hnone. by destruct (check_rules _ _ _ _ _ _) as [[r k'] |].
  - intros am2 alerts k' Hrun.
    destruct (check_rules clock DS pruned (rules am) ch1 (S k))
      as [[r k''] |] eqn:Hloop; [| done].
    injection Hrun as <- <- <-.
    specialize (Hsome _ eq_refl). injection Hsome as -> _. done.
Qed.

(** The first alert constructed while a consumer is blocked on the channel
    is taken by the channel. *)
Lemma check_rules_first_handed clock DS am rs ch k ch' a sent tr k' :
  Chan.recvq ch <> O ->
  check_rules clock DS am rs ch k = Some ((ch', (a, sent) :: tr), k') ->
  sent = true.
Proof.
  intros Hq. revert k. induction rs as [| rule rs IH]; intros k Hrun; [done |].
  rewrite AlertingFacts.check_rules_cons in Hrun.
  destruct (shouldTriggerAlert_at am rule (clock k)); [| by eapply IH].
  unfold Chan.try_send in Hrun.
  destruct (Chan.closed ch); [done |].
  destruct (Chan.recvq ch) as [| waiting]; [done |].
  destruct (check_rules _ _ _ _ _ _) as [[[ch2 tr2] k2] |]; [| done].
  by injection Hrun as _ _ <- _ _.
Qed.

(** X18. The consumer loop and [Stop].  After [Stop], [processAlerts] still
    starts the callback on every alert left in the buffer, oldest first, and
    then ends; with no callback set the alerts are taken and discarded.  On
    an open channel the loop waits instead of ending once the buffer is
    drained, and the first alert a later [ProcessLog] constructs is then
    taken by the channel whatever its capacity. *)
Theorem X18_consumer_and_Stop (am : AlertManager) :
  Chan.closed (alertChannel am) = false ->
  (exists am1,
     Stop am = Some am1 /\
     (processAlerts true am1).1 = (Chan.buf (alertChannel am), true) /\
     (processAlerts false am1).1 = ([], true) /\
     Chan.buf (alertChannel (processAlerts true am1).2) = []) /\
  (processAlerts true am).1 = (Chan.buf (alertChannel am), false) /\
  (forall clock DS log k am' a sent alerts k',
     ProcessLog clock DS (processAlerts true am).2 log k
       = Some ((am', (a, sent) :: alerts), k') ->
     sent = true).
Proof.
  intros Hopen. split; [| split].
  - unfold Stop, Chan.close. rewrite Hopen. eexists. split; [reflexivity |].
    by cbn.
  - unfold processAlerts. by rewrite Hopen.
  - intros clock DS log k am' a sent alerts k' Hrun.
    rewrite AlertingFacts.ProcessLog_unfold in Hrun. cbn zeta in Hrun.
    destruct (check_rules _ _ _ _ _ _) as [[[ch' tr] k''] |] eqn:Hloop; [| done].
    injection Hrun as _ Htr _. cbn [snd] in Htr. subst tr.
    eapply check_rules_first_handed; [| exact Hloop].
    unfold processAlerts. cbn. by rewrite Hopen.
Qed.

(** *** Instances *)

Lemma X8_witness :
  shouldTriggerAlert_at
    {| rules := rules busy_manager; alertChannel := alertChannel busy_manager;
       recentLogs :=
         cleanOldLogs (recentLogs busy_manager)
           (GoTime.Add (150 * GoTime.Second)
              (GoInt.neg_int (getMaxWindow busy_manager))) |}
    one_error (151 * GoTime.Second) =
  shouldTriggerAlert_at busy_manager one_error (151 * GoTime.Second).
Proof.
  apply (X8_pruning_keeps_decisions busy_manager one_error).
  - intros r [<- | [<- | []]]; vm_compute; discriminate.
  - left. reflexivity.
  - vm_compute. reflexivity.
  - vm_compute. discriminate.
Defined.

Lemma X9_witness :
  exists am' alerts k' a sent,
    ProcessLog (frozen (100 * GoTime.Second)) seconds_String
      (manager_with [one_error; zero_threshold])
      (sample_entry Models.LevelInfo 10) 0%nat = Some ((am', alerts), k') /\
    In (a, sent) alerts /\
    RuleName a = Name zero_threshold /\ Count a = Threshold zero_threshold.
Proof.
  apply (X9_nonpositive_threshold_always_fires (frozen (100 * GoTime.Second))
           seconds_String (manager_with [one_error; zero_threshold])
           (sample_entry Models.LevelInfo 10) 0%nat zero_threshold).
  - reflexivity.
  - right. left. reflexivity.
  - vm_compute. discriminate.
Defined.

Lemma X11_witness :
  exists am' alerts k',
    ProcessLog (frozen (100 * GoTime.Second)) seconds_String
      (manager_with [one_error; zero_threshold])
      (sample_entry Models.LevelError 90) 0%nat = Some ((am', alerts), k') /\
    Chan.buf (alertChannel am') = take 100 (map fst alerts) /\
    map fst (List.filter snd alerts) = take 100 (map fst alerts).
Proof.
  eexists _, _, _. split; [vm_compute; reflexivity |].
  destruct (X11_alerts_dropped_when_full (frozen (100 * GoTime.Second))
              seconds_String (manager_with [one_error; zero_threshold])
              (sample_entry Models.LevelError 90) 0%nat _ _ _ eq_refl eq_refl)
    as (Hbuf & Hsent & _).
  split; [exact Hbuf | exact Hsent].
Defined.

Lemma X12_witness :
  exists am1,
    Stop (manager_with [one_error]) = Some am1 /\
    Stop am1 = None /\
    forall am2 alerts k',
      ProcessLog (frozen (100 * GoTime.Second)) seconds_String am1
        (sample_entry Models.LevelInfo 10) 0%nat = Some ((am2, alerts), k') ->
      alerts = [].
Proof.
  eexists. split; [reflexivity |].
  destruct (X12_ProcessLog_after_Stop (frozen (100 * GoTime.Second))
              seconds_String (manager_with [one_error]) _
              (sample_entry Models.LevelInfo 10) 0%nat eq_refl)
    as (Hstop & _ & _ & _ & Hsome).
  split; [exact Hstop |].
  intros am2 alerts k' Hrun. by destruct (Hsome am2 alerts k' Hrun).
Defined.

Lemma X18_witness :
  (processAlerts true busy_manager).1 =
  (Chan.buf (alertChannel busy_manager), false).
Proof.
  destruct (X18_consumer_and_Stop busy_manager eq_refl) as (_ & Hwait & _).
  exact Hwait.
Defined.

End AlertingExtras.

(** ** More on the dispatcher *)

Module IngestionExtras.
Import Ingestion Notions.

Lemma add_uint64_assoc a n :
  GoInt.wrap_uint64 (GoInt.add_uint64 a 1 + n) = GoInt.wrap_uint64 (a + (1 + n)).
Proof.
  unfold GoInt.add_uint64, GoInt.wrap_uint64.
  rewrite Z.add_mod_idemp_l by lia. f_equal. lia.
Qed.

(** X13. Drop on full, call by call: on an open queue that no worker
    receives from, a sequence of [Ingest] calls accepts the entries in order
    as long as the buffer has free slots and rejects all the following ones;
    the buffer gains exactly the accepted entries, in order, and the dropped
    counter grows by the number of rejected ones ([uint64] addition). *)
Theorem X13_ingest_drop_on_full (ing : Ingestor)
    (entries : list Models.LogEntry) :
  Chan.closed (logChannel ing) = false ->
  Chan.recvq (logChannel ing) = O ->
  0 <= TotalDropped (stats ing) < 2 ^ 64 ->
  let free :=
    Z.to_nat (Chan.cap (logChannel ing)
              - Z.of_nat (length (Chan.buf (logChannel ing)))) in
  let n := length entries in
  exists oks ing',
    ingest_all ing entries = Some (oks, ing') /\
    oks = replicate (min free n) true ++ replicate (n - free) false /\
    Chan.buf (logChannel ing') = Chan.buf (logChannel ing) ++ take free entries /\
    TotalDropped (stats ing') =
      GoInt.wrap_uint64 (TotalDropped (stats ing) + Z.of_nat (n - free)) /\
    TotalProcessed (stats ing') = TotalProcessed (stats ing) /\
    store ing' = store ing.
Proof.
  revert ing. induction entries as [| e rest IH]; intros ing Hopen Hq Hd; cbn zeta.
  - exists [], ing. cbn. rewrite Nat.min_0_r, take_nil, !app_nil_r, Z.add_0_r.
    unfold GoInt.wrap_uint64. rewrite Z.mod_small by lia. by repeat split.
  - cbn [ingest_all]. unfold Ingest, Chan.try_send. rewrite Hopen, Hq.
    case_bool_decide as Hroom.
    + match goal with
      | |- context [ingest_all ?i rest] => destruct (IH i) as (oks & ing' & -> & Hoks & Hbuf & Hdrop & Hproc & Hst)
      end; [done | done | done |].
      cbn [logChannel stats Chan.buf Chan.cap store] in *.
      rewrite length_app in *. cbn [length] in *.
      replace (Z.to_nat (Chan.cap (logChannel ing)
                         - Z.of_nat (length (Chan.buf (logChannel ing)))))
        with (S (Z.to_nat (Chan.cap (logChannel ing)
                           - Z.of_nat (length (Chan.buf (logChannel ing)) + 1))))
        by lia.
      eexists _, ing'. split; [reflexivity |]. cbn [min Nat.sub take replicate app].
      rewrite Hoks, Hbuf, <- app_assoc. by repeat split.
    + match goal with
      | |- context [ingest_all ?i rest] => destruct (IH i) as (oks & ing' & -> & Hoks & Hbuf & Hdrop & Hproc & Hst)
      end; [done | done | |].
      { cbn. unfold GoInt.add_uint64, GoInt.wrap_uint64.
        apply Z.mod_pos_bound. lia. }
      cbn [logChannel stats Chan.buf Chan.cap store TotalDropped TotalProcessed] in *.
      replace (Z.to_nat (Chan.cap (logChannel ing)
                         - Z.of_nat (length (Chan.buf (logChannel ing)))))
        with O in * by lia.
      eexists _, ing'. split; [reflexivity |].
      rewrite Nat.sub_0_r in *. cbn [min take replicate app] in *.
      rewrite Hoks, Hbuf, Hdrop, add_uint64_assoc. repeat split; try done.
      cbn [length]. unfold GoInt.wrap_uint64. f_equal. lia.
Qed.

(** X14. [Stop] succeeds on an ingestor that was not stopped and whose queue
    is open; it closes the queue and sets the shutdown signal without
    touching the queued entries, the counters or the store.  Afterwards every
    [Ingest] call and every further [Stop] call panics. *)
Theorem X14_Stop_effect (ing : Ingestor) :
  shutdown ing = false -> Chan.closed (logChannel ing) = false ->
  exists ing1,
    Stop ing = Some ing1 /\
    shutdown ing1 = true /\ Chan.closed (logChannel ing1) = true /\
    Chan.buf (logChannel ing1) = Chan.buf (logChannel ing) /\
    stats ing1 = stats ing /\ store ing1 = store ing /\
    alertManager ing1 = alertManager ing /\
    Stop ing1 = None /\
    forall e, Ingest ing1 e = None.
Proof.
  intros Hrun Hopen. unfold Stop, Chan.close. rewrite Hrun, Hopen.
  eexists. split; [reflexivity |]. by repeat split.
Qed.

Lemma ProcessLog_open clock DS am log k :
  Chan.closed (Alerting.alertChannel am) = false ->
  exists am' alerts k',
    Alerting.ProcessLog clock DS am log k = Some ((am', alerts), k') /\
    Chan.closed (Alerting.alertChannel am') = false.
Proof.
  intros Hopen. rewrite AlertingFacts.ProcessLog_unfold. cbn zeta.
  match goal with
  | |- context [Alerting.check_rules clock DS ?a ?rs ?ch ?i] =>
      destruct (AlertingFacts.check_rules_total clock DS a rs ch i Hopen)
        as (ch' & tr & k' & -> & Hopen')
  end.
  by eexists _, _, _.
Qed.

(** The body of the worker loop on a reachable store, the alert manager (if
    any) having its channel open. *)
Lemma worker_body_ok clock DS ing log k :
  Storage.reachable (store ing) -> manager_open ing ->
  exists ing' k',
    worker_body clock DS ing log k = Some (ing', k') /\
    Storage.Store (store ing) log = Some (store ing') /\
    Storage.reachable (store ing') /\ manager_open ing' /\
    match alertManager ing with
    | Some am =>
        exists am' alerts,
          Alerting.ProcessLog clock DS am log k = Some ((am', alerts), k') /\
          alertManager ing' = Some am'
    | None => alertManager ing' = None /\ k' = k
    end /\
    TotalProcessed (stats ing') =
      GoInt.add_uint64 (TotalProcessed (stats ing)) 1 /\
    TotalDropped (stats ing') = TotalDropped (stats ing) /\
    logChannel ing' = logChannel ing /\ shutdown ing' = shutdown ing /\
    workerCount ing' = workerCount ing.
Proof.
  intros Hr Hm. unfold worker_body, manager_open in *.
  destruct (StorageFacts.Store_total (store ing) log Hr) as [st Hst].
  rewrite Hst.
  assert (Hr' : Storage.reachable st) by by eapply Storage.reachable_store.
  destruct (alertManager ing) as [am |].
  - destruct (ProcessLog_open clock DS am log k Hm)
      as (am' & alerts & k' & -> & Hopen').
    eexists _, _. split; [reflexivity |]. cbn. repeat split; try done.
    by exists am', alerts.
  - eexists _, _. split; [reflexivity |]. cbn. by repeat split.
Qed.

(** X15. One pass of the worker over a received entry: on a reachable store,
    and with the alert channel open when an alert manager is set, the body
    returns; the store is the result of [Store] on the entry, the manager the
    result of [ProcessLog] on it, the processed counter is incremented by one
    ([uint64] addition), and the queue, the dropped counter and the shutdown
    signal are untouched.  Without an alert manager [ProcessLog] is skipped
    and the clock is not read. *)
Theorem X15_worker_body (clock : nat -> GoTime.Time)
    (DS : GoTime.Duration -> string) (ing : Ingestor)
    (log : Models.LogEntry) (k : nat) :
  Storage.reachable (store ing) -> manager_open ing ->
  exists ing' k',
    worker_body clock DS ing log k = Some (ing', k') /\
    Storage.Store (store ing) log = Some (store ing') /\
    match alertManager ing with
    | Some am =>
        exists am' alerts,
          Alerting.ProcessLog clock DS am log k = Some ((am', alerts), k') /\
          alertManager ing' = Some am'
    | None => alertManager ing' = None /\ k' = k
    end /\
    TotalProcessed (stats ing') =
      GoInt.add_uint64 (TotalProcessed (stats ing)) 1 /\
    TotalDropped (stats ing') = TotalDropped (stats ing) /\
    logChannel ing' = logChannel ing /\ shutdown ing' = shutdown ing.
Proof.
  intros Hr Hm.
  destruct (worker_body_ok clock DS ing log k Hr Hm)
    as (ing' & k' & Hrun & Hst & _ & _ & Ham & Hp & Hd & Hch & Hsh & _).
  by exists ing', k'.
Qed.

(** X16. After [Stop], a worker that comes back to its [select] finds both
    cases ready (the queue is closed, the shutdown signal is closed).  If the
    runtime picks the shutdown case the worker returns.  If it picks the
    queue and the queue is empty, the receive yields the zero [LogEntry]: the
    worker stores that empty entry, counts it as processed and loops, in a
    state where the same can happen again. *)
Theorem X16_worker_after_Stop (clock : nat -> GoTime.Time)
    (DS : GoTime.Duration -> string) (ing : Ingestor) (k : nat) :
  shutdown ing = true -> Chan.closed (logChannel ing) = true ->
  Chan.buf (logChannel ing) = [] ->
  Storage.reachable (store ing) -> manager_open ing ->
  worker_iteration clock DS PickShutdown ing k = Some (Returns, k) /\
  exists ing' k',
    worker_iteration clock DS PickLog ing k = Some (Continues ing', k') /\
    Storage.Store (store ing) Models.zero_LogEntry = Some (store ing') /\
    last (Storage.logs (store ing')) = Some Models.zero_LogEntry /\
    TotalProcessed (stats ing') =
      GoInt.add_uint64 (TotalProcessed (stats ing)) 1 /\
    shutdown ing' = true /\ Chan.closed (logChannel ing') = true /\
    Chan.buf (logChannel ing') = [] /\
    Storage.reachable (store ing') /\ manager_open ing'.
Proof.
  intros Hsh Hcl Hbuf Hr Hm. unfold worker_iteration, Chan.receive_ready.
  rewrite Hbuf, Hcl, Hsh. split; [done |].
  set (ing0 := {| store := store ing; logChannel := logChannel ing |}).
  destruct (worker_body_ok clock DS ing0 Models.zero_LogEntry k Hr Hm)
    as (ing' & k' & -> & Hst & Hr' & Hm' & _ & Hp & _ & Hch & Hsh' & _).
  exists ing', k'. split; [done |]. split; [exact Hst |].
  cbn [logChannel shutdown ing0] in Hch, Hsh'.
  rewrite Hch, Hsh'. repeat split; try done.
  destruct (StorageExtras.Store_effect (store ing) Models.zero_LogEntry Hr)
    as (ms' & Hst' & _ & _ & _ & Hlast).
  cbn [store ing0] in Hst. rewrite Hst in Hst'. by injection Hst' as <-.
Qed.

(** X17. From acceptance to the store: on a running ingestor whose queue is
    empty, has room and has no worker blocked on it, [Ingest] accepts the
    entry, and the next iteration of a worker (whatever the runtime would
    pick) takes that entry from the queue, stores it as the newest entry of
    the store, counts it as processed and leaves the queue empty; on the
    empty queue the worker would have waited. *)
Theorem X17_accepted_entry_is_stored (clock : nat -> GoTime.Time)
    (DS : GoTime.Duration -> string) (ing : Ingestor)
    (e : Models.LogEntry) (pick : select_case) (k : nat) :
  shutdown ing = false -> Chan.closed (logChannel ing) = false ->
  Chan.recvq (logChannel ing) = O -> Chan.buf (logChannel ing) = [] ->
  0 < Chan.cap (logChannel ing) ->
  Storage.reachable (store ing) -> manager_open ing ->
  (exists ing0, worker_iteration clock DS pick ing k = Some (Waits ing0, k)) /\
  exists ing1 ing2 k',
    Ingest ing e = Some (true, ing1) /\
    worker_iteration clock DS pick ing1 k = Some (Continues ing2, k') /\
    Storage.Store (store ing) e = Some (store ing2) /\
    last (Storage.logs (store ing2)) = Some e /\
    Chan.buf (logChannel ing2) = [] /\
    TotalProcessed (stats ing2) =
      GoInt.add_uint64 (TotalProcessed (stats ing)) 1 /\
    TotalDropped (stats ing2) = TotalDropped (stats ing).
Proof.
  intros Hsh Hopen Hq Hbuf Hcap Hr Hm. split.
  - unfold worker_iteration, Chan.receive_ready. rewrite Hbuf, Hopen, Hsh.
    by eexists.
  - unfold Ingest, Chan.try_send. rewrite Hopen, Hq, Hbuf.
    rewrite bool_decide_eq_true_2 by (cbn; lia).
    match goal with
    | |- exists ing1 ing2 k', Some (true, ?x) = _ /\ _ => exists x
    end.
    unfold worker_iteration, Chan.receive_ready.
    cbn [logChannel Chan.buf app shutdown store alertManager stats workerCount
         Chan.cap Chan.closed Chan.recvq Chan.handed].
    rewrite Hsh.
    match goal with
    | |- context [worker_body clock DS ?i e k] =>
        destruct (worker_body_ok clock DS i e k Hr Hm)
          as (ing2 & k' & Hrun & Hst & _ & _ & _ & Hp & Hd & Hch & _)
    end.
    exists ing2, k'. split; [done |]. split.
    { destruct pick; by rewrite Hrun. }
    cbn [store logChannel stats] in Hst, Hp, Hd, Hch.
    rewrite Hch, Hp, Hd. repeat split; try done.
    destruct (StorageExtras.Store_effect (store ing) e Hr)
      as (ms' & Hst' & _ & _ & _ & Hlast).
    rewrite Hst in Hst'. by injection Hst' as <-.
Qed.

(** *** Instances *)

Lemma X13_witness :
  exists oks ing',
    ingest_all sample_ingestor (sample_entries 5) = Some (oks, ing') /\
    oks = [true; true; false; false; false] /\
    Chan.buf (logChannel ing') = take 2 (sample_entries 5) /\
    TotalDropped (stats ing') = 3.
Proof.
  destruct (X13_ingest_drop_on_full sample_ingestor (sample_entries 5))
    as (oks & ing' & Hrun & Hoks & Hbuf & Hdrop & _).
  - reflexivity.
  - reflexivity.
  - cbn. lia.
  - exists oks, ing'. split; [exact Hrun |]. split; [exact Hoks |].
    split; [exact Hbuf | exact Hdrop].
Defined.

Lemma X14_witness :
  exists ing1,
    Stop sample_ingestor = Some ing1 /\
    Stop ing1 = None /\
    forall e, Ingest ing1 e = None.
Proof.
  destruct (X14_Stop_effect sample_ingestor eq_refl eq_refl)
    as (ing1 & Hstop & _ & _ & _ & _ & _ & _ & Hagain & Hingest).
  by exists ing1.
Defined.

Lemma sample_ingestor_store_reachable :
  Storage.reachable (store sample_ingestor).
Proof.
  apply (StorageFacts.store_of_reachable 10 (minute_entries 4)).
  vm_compute. reflexivity.
Qed.

Lemma X15_witness :
  exists ing' k',
    worker_body (frozen (100 * GoTime.Second)) seconds_String sample_ingestor
      (sample_entry Models.LevelError 90) 0%nat = Some (ing', k') /\
    Storage.Store (store sample_ingestor) (sample_entry Models.LevelError 90)
      = Some (store ing') /\
    TotalProcessed (stats ing') = 1.
Proof.
  destruct (X15_worker_body (frozen (100 * GoTime.Second)) seconds_String
              sample_ingestor (sample_entry Models.LevelError 90) 0%nat)
    as (ing' & k' & Hrun & Hst & _ & Hp & _).
  - apply (StorageFacts.store_of_reachable 10 (minute_entries 4)).
    vm_compute. reflexivity.
  - reflexivity.
  - by exists ing', k'.
Defined.

Lemma X16_witness :
  exists ing' k',
    worker_iteration (frozen (100 * GoTime.Second)) seconds_String PickLog
      stopped_ingestor 0%nat = Some (Continues ing', k') /\
    last (Storage.logs (store ing')) = Some Models.zero_LogEntry /\
    TotalProcessed (stats ing') = 1.
Proof.
  destruct (X16_worker_after_Stop (frozen (100 * GoTime.Second)) seconds_String
              stopped_ingestor 0%nat)
    as (_ & ing' & k' & Hrun & _ & Hlast & Hp & _).
  - reflexivity.
  - reflexivity.
  - reflexivity.
  - apply (StorageFacts.store_of_reachable 10 (minute_entries 4)).
    vm_compute. reflexivity.
  - reflexivity.
  - by exists ing', k'.
Defined.

Lemma X17_witness :
  exists ing1 ing2 k',
    Ingest sample_ingestor (sample_entry Models.LevelError 90)
      = Some (true, ing1) /\
    worker_iteration (frozen (100 * GoTime.Second)) seconds_String PickLog
      ing1 0%nat = Some (Continues ing2, k') /\
    last (Storage.logs (store ing2)) = Some (sample_entry Models.LevelError 90).
Proof.
  destruct (X17_accepted_entry_is_stored (frozen (100 * GoTime.Second))
              seconds_String sample_ingestor
              (sample_entry Models.LevelError 90) PickLog 0%nat)
    as (_ & ing1 & ing2 & k' & Hin & Hrun & _ & Hlast & _).
  - reflexivity.
  - reflexivity.
  - reflexivity.
  - reflexivity.
  - vm_compute. reflexivity.
  - apply (StorageFacts.store_of_reachable 10 (minute_entries 4)).
    vm_compute. reflexivity.
  - reflexivity.
  - by exists ing1, ing2, k'.
Defined.

End IngestionExtras.
